(** * bodygram/lengths: the [Length] value type, its conversions and its formatter

    A [Length] is a [uint64] count of nanometers.  The Go package converts
    it to and from [float64] unit counts and prints it with an automatically
    selected unit.  This development embeds both source variants
    ([lengths.go], which knows kilometers, and the older meter-capped file)
    over an IEEE-754 binary64 model built on the standard library's
    [SpecFloat], and then proves the properties of the specification. *)

From Stdlib Require Import ZArith QArith Qpower Qround Qabs Lia Lqa Bool List String Ascii.
From Stdlib Require Import Floats.SpecFloat.

Local Open Scope Z_scope.

(** ** IEEE-754 binary64, as Go's [float64] *)

Module F64.

Definition prec : Z := 53.
Definition emax : Z := 1024.

Definition float64 : Type := spec_float.

(** Go's [*], [+] and [/] on [float64] (round to nearest, ties to even). *)
Definition mul : float64 -> float64 -> float64 := SFmul prec emax.
Definition add : float64 -> float64 -> float64 := SFadd prec emax.
Definition div : float64 -> float64 -> float64 := SFdiv prec emax.

(** [float64(n)] for an unsigned integer [n]: the nearest double. *)
Definition of_uint64 (n : Z) : float64 := binary_normalize prec emax n 0 false.

(** An untyped decimal constant [m * 10^e10] (Go writes [1e3], [254e5])
    converted to [float64]: the correctly rounded double. *)
Definition of_decimal (m e10 : Z) : float64 :=
  match m with
  | Zpos p =>
      if 0 <=? e10 then of_uint64 (m * 10 ^ e10)
      else SFdiv prec emax (S754_finite false p 0)
                           (S754_finite false (Z.to_pos (10 ^ (- e10))) 0)
  | _ => S754_zero false
  end.

(** The integer part of the magnitude of a finite double. *)
Definition trunc_mag (m : positive) (e : Z) : Z :=
  match e with
  | Zneg k => Z.shiftr (Zpos m) (Zpos k)
  | _ => Z.shiftl (Zpos m) e
  end.

(** [uint64(x)]: the fraction is discarded (truncation toward zero).  When
    the truncated value is not a [uint64] (NaN, an infinity, a value of
    [2^64] or more, a value of [-1] or less) Go leaves the result to the
    implementation; the model answers [None] there. *)
Definition to_uint64 (x : float64) : option Z :=
  match x with
  | S754_zero _ => Some 0
  | S754_finite s m e =>
      let t := trunc_mag m e in
      if s then (if t =? 0 then Some 0 else None)
      else if t <? 2 ^ 64 then Some t else None
  | _ => None
  end.

(** The rational number a double stands for ([0] for NaN and infinities,
    which the theorems exclude through [finite]). *)
Definition value (x : float64) : Q :=
  match x with
  | S754_finite s m e =>
      let q := (inject_Z (Zpos m) * Qpower 2 e)%Q in
      if s then Qopp q else q
  | _ => 0%Q
  end.

Definition finite (x : float64) : bool :=
  match x with
  | S754_zero _ | S754_finite _ _ _ => true
  | _ => false
  end.

(** A double of the format: canonical mantissa and exponent. *)
Definition valid (x : float64) : bool := valid_binary prec emax x.

(** Sign bit clear and not NaN; [-0] counts as zero. *)
Definition nonneg (x : float64) : bool :=
  match x with
  | S754_zero _ => true
  | S754_infinity s | S754_finite s _ _ => negb s
  | S754_nan => false
  end.

Definition is_zero (x : float64) : bool :=
  match x with
  | S754_zero _ => true
  | _ => false
  end.

Definition eqb : float64 -> float64 -> bool := SFeqb.

End F64.

(** ** [strconv] and [fmt]: the formatting the package relies on

    These belong to Go's standard library, not to the package.  They are
    modelled after their documented behaviour: [%d] prints the decimal
    digits, and [FormatFloat] with format ['f'] and precision [-1] prints,
    without exponent, the fewest digits that read back as the same
    double. *)

Module Strconv.

Definition digit_char (d : Z) : ascii := ascii_of_nat (48 + Z.to_nat d).

Fixpoint utoa_loop (fuel : nat) (n : Z) (acc : string) : string :=
  match fuel with
  | O => acc
  | S k =>
      let acc' := String (digit_char (n mod 10)) acc in
      if n / 10 =? 0 then acc' else utoa_loop k (n / 10) acc'
  end.

(** [%d] of an unsigned integer. *)
Definition utoa (n : Z) : string :=
  utoa_loop (S (Z.to_nat (Z.log2 n))) n EmptyString.

Fixpoint zeros (k : nat) : string :=
  match k with
  | O => EmptyString
  | S k' => String "0"%char (zeros k')
  end.

(** A positive double [m * 2^e] as a fraction [num / den]. *)
Definition fraction (m : positive) (e : Z) : Z * Z :=
  match e with
  | Zneg k => (Zpos m, 2 ^ Zpos k)
  | _ => (Zpos m * 2 ^ e, 1)
  end.

(** The fraction scaled by [10^(-x)], so that its integer part counts
    units of [10^x]. *)
Definition scaled (m : positive) (e x : Z) : Z * Z :=
  let '(n, d) := fraction m e in
  if 0 <=? x then (n, d * 10 ^ x) else (n * 10 ^ (- x), d).

(** Shortest decimal that reads back as the same double, searched from
    the coarsest decimal grid downwards: at grid [10^x] the value lies
    between [lo * 10^x] and [(lo + 1) * 10^x]; the first grid where one of
    the two converts back to the double wins, the nearer one when both do
    (ties to the even digit).  This is what [strconv.FormatFloat] does with
    precision [-1]. *)
Fixpoint shortest_loop (fuel : nat) (f : F64.float64) (m : positive) (e x : Z)
  : Z * Z :=
  let '(a, b) := scaled m e x in
  let lo := a / b in
  let r := a mod b in
  if r =? 0 then (lo, x)
  else
    let okdown := (0 <? lo) && F64.eqb (F64.of_decimal lo x) f in
    let okup := F64.eqb (F64.of_decimal (lo + 1) x) f in
    let up :=
      match 2 * r ?= b with
      | Lt => false
      | Gt => true
      | Eq => Z.odd lo
      end in
    if okdown && okup then ((if up then lo + 1 else lo), x)
    else if okdown then (lo, x)
    else if okup then (lo + 1, x)
    else
      match fuel with
      | O => (lo, x)
      | S k => shortest_loop k f m e (x - 1)
      end.

Fixpoint strip_zeros (fuel : nat) (d x : Z) : Z * Z :=
  match fuel with
  | O => (d, x)
  | S k =>
      if (x <? 0) && (d mod 10 =? 0) && negb (d =? 0)
      then strip_zeros k (d / 10) (x + 1)
      else (d, x)
  end.

Definition shortest (m : positive) (e : Z) : Z * Z :=
  let f := S754_finite false m e in
  let '(n, d) := fraction m e in
  let x0 := Z.log2 (n / d + 1) / 3 + 1 in
  let '(dg, x) := shortest_loop (Z.to_nat (x0 + 1100)) f m e x0 in
  strip_zeros 400 dg x.

(** Format ['f']: the digits [d] scaled by [10^x], without exponent. *)
Definition fmtF (d x : Z) : string :=
  if 0 <=? x then utoa (d * 10 ^ x)
  else
    let k := - x in
    let fp := utoa (d mod 10 ^ k) in
    utoa (d / 10 ^ k) ++ "." ++ zeros (Z.to_nat k - length fp) ++ fp.

(** [strconv.FormatFloat(f, 'f', -1, 64)]. *)
Definition FormatFloat_f_shortest (f : F64.float64) : string :=
  match f with
  | S754_nan => "NaN"
  | S754_infinity false => "+Inf"
  | S754_infinity true => "-Inf"
  | S754_zero false => "0"
  | S754_zero true => "-0"
  | S754_finite s m e =>
      let '(d, x) := shortest m e in
      (if s then "-" else "") ++ fmtF d x
  end.

End Strconv.

(** ** The package, [lengths.go] (with kilometers) *)

(** [type Length uint64]: a nanometer count.  The code only divides and
    takes remainders by the non-zero unit constants, which never leaves the
    [uint64] range, so no wrap-around occurs in it. *)
Definition Length : Type := Z.

Bind Scope Z_scope with Length.

Definition is_uint64 (l : Z) : Prop := 0 <= l < 2 ^ 64.

Definition formatFloat (f : F64.float64) : string :=
  Strconv.FormatFloat_f_shortest f.

Module Lengths.

Definition Nanometer : Length := 1.
Definition Micrometer : Length := 1000 * Nanometer.
Definition Millimeter : Length := 1000000 * Nanometer.
Definition Centimeter : Length := 10000000 * Nanometer.
Definition Meter : Length := 1000000000 * Nanometer.
Definition Kilometer : Length := 1000000000000 * Nanometer.
Definition Inch : Length := 25400000 * Nanometer.
Definition Foot : Length := 304800000 * Nanometer.

(** The methods [l.Micrometers()], ..., [l.Inches()]. *)
Definition Length_Micrometers (l : Length) : F64.float64 :=
  F64.add (F64.of_uint64 (l / Micrometer))
          (F64.div (F64.of_uint64 (l mod Micrometer)) (F64.of_decimal 1 3)).

Definition Length_Millimeters (l : Length) : F64.float64 :=
  F64.add (F64.of_uint64 (l / Millimeter))
          (F64.div (F64.of_uint64 (l mod Millimeter)) (F64.of_decimal 1 6)).

Definition Length_Centimeters (l : Length) : F64.float64 :=
  F64.add (F64.of_uint64 (l / Centimeter))
          (F64.div (F64.of_uint64 (l mod Centimeter)) (F64.of_decimal 1 7)).

Definition Length_Meters (l : Length) : F64.float64 :=
  F64.add (F64.of_uint64 (l / Meter))
          (F64.div (F64.of_uint64 (l mod Meter)) (F64.of_decimal 1 9)).

Definition Length_Kilometers (l : Length) : F64.float64 :=
  F64.add (F64.of_uint64 (l / Kilometer))
          (F64.div (F64.of_uint64 (l mod Kilometer)) (F64.of_decimal 1 12)).

Definition Length_Inches (l : Length) : F64.float64 :=
  F64.add (F64.of_uint64 (l / Inch))
          (F64.div (F64.of_uint64 (l mod Inch)) (F64.of_decimal 254 5)).

Definition FeetAndInches (l : Length) : F64.float64 * F64.float64 :=
  let feet := l / Foot in
  let inches := l mod Foot in
  (F64.of_uint64 feet, Length_Inches inches).

(** The functions [Millimeters(f)], ..., [Feet(f)]. *)
Definition Millimeters (f : F64.float64) : option Length :=
  F64.to_uint64 (F64.mul f (F64.of_uint64 Millimeter)).

Definition Centimeters (f : F64.float64) : option Length :=
  F64.to_uint64 (F64.mul f (F64.of_uint64 Centimeter)).

Definition Meters (f : F64.float64) : option Length :=
  F64.to_uint64 (F64.mul f (F64.of_uint64 Meter)).

Definition Kilometers (f : F64.float64) : option Length :=
  F64.to_uint64 (F64.mul f (F64.of_uint64 Kilometer)).

Definition Inches (f : F64.float64) : option Length :=
  F64.to_uint64 (F64.mul f (F64.of_uint64 Inch)).

Definition Feet (f : F64.float64) : option Length :=
  F64.to_uint64 (F64.mul f (F64.of_uint64 Foot)).

(** [func (l Length) String() string]: the first case of the [switch]
    that holds. *)
Definition String (l : Length) : string :=
  if l <? Nanometer then "0"
  else if l <? Micrometer then Strconv.utoa (l / Nanometer) ++ "nm"
  else if l <? Millimeter then formatFloat (Length_Micrometers l) ++ "μm"
  else if l <? Centimeter then formatFloat (Length_Millimeters l) ++ "mm"
  else if l <? Meter then formatFloat (Length_Centimeters l) ++ "cm"
  else if l <? Kilometer then formatFloat (Length_Meters l) ++ "m"
  else formatFloat (Length_Kilometers l) ++ "km".

(** The units with an accessor method ([l.ToUnit(U)] in the
    specification) and the units with a converting function ([U(f)]). *)
Inductive AUnit : Set :=
  AMicrometers | AMillimeters | ACentimeters | AMeters | AKilometers | AInches.

Inductive CUnit : Set :=
  CMillimeters | CCentimeters | CMeters | CKilometers | CInches | CFeet.

Definition ToUnit (u : AUnit) (l : Length) : F64.float64 :=
  match u with
  | AMicrometers => Length_Micrometers l
  | AMillimeters => Length_Millimeters l
  | ACentimeters => Length_Centimeters l
  | AMeters => Length_Meters l
  | AKilometers => Length_Kilometers l
  | AInches => Length_Inches l
  end.

Definition FromUnit (u : CUnit) (f : F64.float64) : option Length :=
  match u with
  | CMillimeters => Millimeters f
  | CCentimeters => Centimeters f
  | CMeters => Meters f
  | CKilometers => Kilometers f
  | CInches => Inches f
  | CFeet => Feet f
  end.

Definition nanometersPerAUnit (u : AUnit) : Z :=
  match u with
  | AMicrometers => Micrometer
  | AMillimeters => Millimeter
  | ACentimeters => Centimeter
  | AMeters => Meter
  | AKilometers => Kilometer
  | AInches => Inch
  end.

Definition nanometersPerUnit (u : CUnit) : Z :=
  match u with
  | CMillimeters => Millimeter
  | CCentimeters => Centimeter
  | CMeters => Meter
  | CKilometers => Kilometer
  | CInches => Inch
  | CFeet => Foot
  end.

(** The accessor that reads back what a converting function builds;
    feet have none. *)
Definition accessor_of (u : CUnit) : option AUnit :=
  match u with
  | CMillimeters => Some AMillimeters
  | CCentimeters => Some ACentimeters
  | CMeters => Some AMeters
  | CKilometers => Some AKilometers
  | CInches => Some AInches
  | CFeet => None
  end.

End Lengths.

(** ** The older variant of the package (no unit above the meter) *)

Module Legacy.

Definition Nanometer : Length := 1.
Definition Micrometer : Length := 1000 * Nanometer.
Definition Millimeter : Length := 1000000 * Nanometer.
Definition Centimeter : Length := 10000000 * Nanometer.
Definition Meter : Length := 1000000000 * Nanometer.
Definition Inch : Length := 25400000 * Nanometer.
Definition Foot : Length := 304800000 * Nanometer.

Definition Length_Micrometers (l : Length) : F64.float64 :=
  F64.add (F64.of_uint64 (l / Micrometer))
          (F64.div (F64.of_uint64 (l mod Micrometer)) (F64.of_decimal 1 3)).

Definition Length_Millimeters (l : Length) : F64.float64 :=
  F64.add (F64.of_uint64 (l / Millimeter))
          (F64.div (F64.of_uint64 (l mod Millimeter)) (F64.of_decimal 1 6)).

Definition Length_Centimeters (l : Length) : F64.float64 :=
  F64.add (F64.of_uint64 (l / Centimeter))
          (F64.div (F64.of_uint64 (l mod Centimeter)) (F64.of_decimal 1 7)).

Definition Length_Meters (l : Length) : F64.float64 :=
  F64.add (F64.of_uint64 (l / Meter))
          (F64.div (F64.of_uint64 (l mod Meter)) (F64.of_decimal 1 9)).

Definition Length_Inches (l : Length) : F64.float64 :=
  F64.add (F64.of_uint64 (l / Inch))
          (F64.div (F64.of_uint64 (l mod Inch)) (F64.of_decimal 254 5)).

Definition FeetAndInches (l : Length) : F64.float64 * F64.float64 :=
  let feet := l / Foot in
  let inches := l mod Foot in
  (F64.of_uint64 feet, Length_Inches inches).

Definition Millimeters (f : F64.float64) : option Length :=
  F64.to_uint64 (F64.mul f (F64.of_uint64 Millimeter)).

Definition Centimeters (f : F64.float64) : option Length :=
  F64.to_uint64 (F64.mul f (F64.of_uint64 Centimeter)).

Definition Meters (f : F64.float64) : option Length :=
  F64.to_uint64 (F64.mul f (F64.of_uint64 Meter)).

Definition Inches (f : F64.float64) : option Length :=
  F64.to_uint64 (F64.mul f (F64.of_uint64 Inch)).

Definition Feet (f : F64.float64) : option Length :=
  F64.to_uint64 (F64.mul f (F64.of_uint64 Foot)).

Definition String (l : Length) : string :=
  if l <? Nanometer then "0nm"
  else if l <? Micrometer then Strconv.utoa (l / Nanometer) ++ "nm"
  else if l <? Millimeter then formatFloat (Length_Micrometers l) ++ "μm"
  else if l <? Centimeter then formatFloat (Length_Millimeters l) ++ "mm"
  else if l <? Meter then formatFloat (Length_Centimeters l) ++ "cm"
  else formatFloat (Length_Meters l) ++ "m".

Inductive AUnit : Set :=
  AMicrometers | AMillimeters | ACentimeters | AMeters | AInches.

Inductive CUnit : Set :=
  CMillimeters | CCentimeters | CMeters | CInches | CFeet.

Definition ToUnit (u : AUnit) (l : Length) : F64.float64 :=
  match u with
  | AMicrometers => Length_Micrometers l
  | AMillimeters => Length_Millimeters l
  | ACentimeters => Length_Centimeters l
  | AMeters => Length_Meters l
  | AInches => Length_Inches l
  end.

Definition FromUnit (u : CUnit) (f : F64.float64) : option Length :=
  match u with
  | CMillimeters => Millimeters f
  | CCentimeters => Centimeters f
  | CMeters => Meters f
  | CInches => Inches f
  | CFeet => Feet f
  end.

(** Every unit of this variant is a unit of [lengths.go]. *)
Definition a_unit (u : AUnit) : Lengths.AUnit :=
  match u with
  | AMicrometers => Lengths.AMicrometers
  | AMillimeters => Lengths.AMillimeters
  | ACentimeters => Lengths.ACentimeters
  | AMeters => Lengths.AMeters
  | AInches => Lengths.AInches
  end.

Definition c_unit (u : CUnit) : Lengths.CUnit :=
  match u with
  | CMillimeters => Lengths.CMillimeters
  | CCentimeters => Lengths.CCentimeters
  | CMeters => Lengths.CMeters
  | CInches => Lengths.CInches
  | CFeet => Lengths.CFeet
  end.

Definition nanometersPerAUnit (u : AUnit) : Z :=
  match u with
  | AMicrometers => Micrometer
  | AMillimeters => Millimeter
  | ACentimeters => Centimeter
  | AMeters => Meter
  | AInches => Inch
  end.

Definition nanometersPerUnit (u : CUnit) : Z :=
  match u with
  | CMillimeters => Millimeter
  | CCentimeters => Centimeter
  | CMeters => Meter
  | CInches => Inch
  | CFeet => Foot
  end.

Definition accessor_of (u : CUnit) : option AUnit :=
  match u with
  | CMillimeters => Some AMillimeters
  | CCentimeters => Some ACentimeters
  | CMeters => Some AMeters
  | CInches => Some AInches
  | CFeet => None
  end.

End Legacy.

(** ** The package's tests ([lengths_test.go])

    Each test walks a table and reports every row whose result differs
    from the expected one; it passes when no row is reported.  The tests
    are written against the package's functions, here taken as
    parameters so that they can be run on either variant. *)

Module Tests.

(** [floatEqual]: equal up to the fifth decimal. *)
Definition floatEqual (a b : F64.float64) : bool :=
  SFltb (SFabs (SFsub F64.prec F64.emax a b)) (F64.of_decimal 1 (-5)).

Definition same_length (got : option Length) (want : Length) : bool :=
  match got with
  | Some l => l =? want
  | None => false
  end.

(** Rows of [TestFromMetrics]: [f], [wantMM], [wantCM], [wantM]. *)
Definition metric_cases : list (F64.float64 * (Length * Length * Length)) :=
  (F64.of_decimal 0 0, (0, 0, 0)) ::
  (F64.of_decimal 1 (-9), (0, 0, 1)) ::
  (F64.of_decimal 1 (-8), (0, 0, 10)) ::
  (F64.of_decimal 1 (-7), (0, 1, 100)) ::
  (F64.of_decimal 1 (-6), (1, 10, 1000)) ::
  (F64.of_decimal 1 (-5), (10, 100, 10000)) ::
  (F64.of_decimal 1 (-4), (100, 1000, 100000)) ::
  (F64.of_decimal 1 (-3), (1000, 10000, 1000000)) ::
  (F64.of_decimal 1 (-2), (10000, 100000, 10000000)) ::
  (F64.of_decimal 1 (-1), (100000, 1000000, 100000000)) ::
  (F64.of_decimal 1 0, (1000000, 10000000, 1000000000)) ::
  (F64.of_decimal 1 1, (10000000, 100000000, 10000000000)) ::
  (F64.of_decimal 1 2, (100000000, 1000000000, 100000000000)) ::
  (F64.of_decimal 1 3, (1000000000, 10000000000, 1000000000000)) :: nil.

Definition TestFromMetrics
    (Millimeters Centimeters Meters : F64.float64 -> option Length) : bool :=
  forallb (fun tc =>
             let '(f, (wantMM, wantCM, wantM)) := tc in
             same_length (Millimeters f) wantMM &&
             same_length (Centimeters f) wantCM &&
             same_length (Meters f) wantM)
          metric_cases.

Definition inch_cases : list (F64.float64 * Length) :=
  (F64.of_decimal 0 0, 0) ::
  (F64.of_decimal 1 (-7), 2) ::
  (F64.of_decimal 1 (-6), 25) ::
  (F64.of_decimal 1 (-5), 254) ::
  (F64.of_decimal 1 (-4), 2540) ::
  (F64.of_decimal 1 (-3), 25400) ::
  (F64.of_decimal 1 (-2), 254000) ::
  (F64.of_decimal 1 (-1), 2540000) ::
  (F64.of_decimal 1 0, 25400000) ::
  (F64.of_decimal 1 1, 254000000) ::
  (F64.of_decimal 1 2, 2540000000) :: nil.

Definition TestFromInches (Inches : F64.float64 -> option Length) : bool :=
  forallb (fun tc => same_length (Inches (fst tc)) (snd tc)) inch_cases.

Definition foot_cases : list (F64.float64 * Length) :=
  (F64.of_decimal 0 0, 0) ::
  (F64.of_decimal 1 (-7), 30) ::
  (F64.of_decimal 1 (-6), 304) ::
  (F64.of_decimal 1 (-5), 3048) ::
  (F64.of_decimal 1 (-4), 30480) ::
  (F64.of_decimal 1 (-3), 304800) ::
  (F64.of_decimal 1 (-2), 3048000) ::
  (F64.of_decimal 1 (-1), 30480000) ::
  (F64.of_decimal 1 0, 304800000) ::
  (F64.of_decimal 1 1, 3048000000) ::
  (F64.of_decimal 1 2, 30480000000) :: nil.

Definition TestFromFeet (Feet : F64.float64 -> option Length) : bool :=
  forallb (fun tc => same_length (Feet (fst tc)) (snd tc)) foot_cases.

(** Rows of [TestFeetAndInches]: [l], [wantFeet], [wantInches]. *)
Definition feet_and_inches_cases : list (Length * (F64.float64 * F64.float64)) :=
  (0 * Lengths.Nanometer, (F64.of_decimal 0 0, F64.of_decimal 0 0)) ::
  (254 * Lengths.Micrometer, (F64.of_decimal 0 0, F64.of_decimal 1 (-2))) ::
  (178 * Lengths.Centimeter,
   (F64.of_decimal 5 0, F64.of_decimal 1007874 (-5))) :: nil.

Definition TestFeetAndInches
    (FeetAndInches : Length -> F64.float64 * F64.float64) : bool :=
  forallb (fun tc =>
             let '(l, (wantFeet, wantInches)) := tc in
             let '(gotFeet, gotInches) := FeetAndInches l in
             floatEqual gotFeet wantFeet && floatEqual gotInches wantInches)
          feet_and_inches_cases.




End Tests.

(** ** Reference computations named by the specification *)

(** [float(l / Ku) + float(l mod Ku) / float(Ku)]. *)
Definition two_step (Ku : Z) (l : Length) : F64.float64 :=
  F64.add (F64.of_uint64 (l / Ku))
          (F64.div (F64.of_uint64 (l mod Ku)) (F64.of_uint64 Ku)).

(** [float(l) / float(Ku)]. *)
Definition single_division (Ku : Z) (l : Length) : F64.float64 :=
  F64.div (F64.of_uint64 l) (F64.of_uint64 Ku).

(** A double that is a non-negative number, and zero exactly when the
    length is. *)
Definition nonnegative_zero_iff (r : F64.float64) (l : Length) : Prop :=
  F64.finite r = true /\ F64.nonneg r = true /\ (0 <= F64.value r)%Q /\
  ((F64.value r == 0)%Q <-> l = 0) /\ (F64.is_zero r = true <-> l = 0).

(** The double product [f * float64(Ku)] a converting function truncates,
    and what it means for it to fit a [uint64]. *)
Definition product (Ku : Z) (f : F64.float64) : F64.float64 :=
  F64.mul f (F64.of_uint64 Ku).

Definition representable (p : F64.float64) : Prop :=
  F64.finite p = true /\ (F64.value p < inject_Z (2 ^ 64))%Q.

(** Rounding of a rational to the nearest integer (halves upwards). *)
Definition Qround_nearest (q : Q) : Z := Qfloor (q + (1 # 2)).

(** Does the character occur in the string? *)
Fixpoint occurs (c : ascii) (s : string) : bool :=
  match s with
  | EmptyString => false
  | String a s' => Ascii.eqb a c || occurs c s'
  end.

(** ** Notions used by the rounding proofs *)

(** Position of a rational [x] relative to the integer [m] below it, in the
    vocabulary of [SpecFloat]'s [location]. *)
Definition inbetween (m : Z) (l : location) (x : Q) : Prop :=
  match l with
  | loc_Exact => (x == inject_Z m)%Q
  | loc_Inexact c =>
      (inject_Z m < x)%Q /\ (x < inject_Z m + 1)%Q /\
      Qcompare x (inject_Z m + (1 # 2)) = c
  end.

(** What [binary_round_aux] builds from the rounded mantissa [m] at
    exponent [e]. *)
Definition pack (s : bool) (m e : Z) : spec_float :=
  if m =? 0 then S754_zero s
  else if m <? 2 ^ 53 then
         if e <=? 971 then S754_finite s (Z.to_pos m) e else S754_infinity s
       else
         if e + 1 <=? 971 then S754_finite s (2 ^ 52)%positive (e + 1)
         else S754_infinity s.

(** Powers of two as rationals, and the unit roundoff of binary64. *)
Definition pow2 (e : Z) : Q := Qpower 2 e.

Definition u53 : Q := pow2 (-53).

Ltac q_compare :=
  repeat match goal with
         | H : Qcompare _ _ = Lt |- _ => rewrite <- Qlt_alt in H
         | H : Qcompare _ _ = Eq |- _ => rewrite <- Qeq_alt in H
         | H : Qcompare _ _ = Gt |- _ => rewrite <- Qgt_alt in H
         | |- Qcompare _ _ = Lt => rewrite <- Qlt_alt
         | |- Qcompare _ _ = Eq => rewrite <- Qeq_alt
         | |- Qcompare _ _ = Gt => rewrite <- Qgt_alt
         end.

Ltac q_norm :=
  change (inject_Z 0) with 0%Q in *; change (inject_Z 1) with 1%Q in *.

(** * Properties *)

(** ** The two variants share every conversion *)

Lemma Legacy_ToUnit (u : Legacy.AUnit) (l : Length) :
  Legacy.ToUnit u l = Lengths.ToUnit (Legacy.a_unit u) l.
Proof. destruct u; reflexivity. Qed.

Lemma Legacy_FromUnit (u : Legacy.CUnit) (f : F64.float64) :
  Legacy.FromUnit u f = Lengths.FromUnit (Legacy.c_unit u) f.
Proof. destruct u; reflexivity. Qed.

Lemma Legacy_nanometersPerUnit (u : Legacy.CUnit) :
  Legacy.nanometersPerUnit u = Lengths.nanometersPerUnit (Legacy.c_unit u).
Proof. destruct u; reflexivity. Qed.

Lemma Legacy_nanometersPerAUnit (u : Legacy.AUnit) :
  Legacy.nanometersPerAUnit u = Lengths.nanometersPerAUnit (Legacy.a_unit u).
Proof. destruct u; reflexivity. Qed.

Lemma Legacy_FeetAndInches (l : Length) :
  Legacy.FeetAndInches l = Lengths.FeetAndInches l.
Proof. reflexivity. Qed.

(** The decimal constants of the accessors are the unit constants as
    doubles. *)
Lemma divisor_constant (u : Lengths.AUnit) :
  Lengths.ToUnit u = two_step (Lengths.nanometersPerAUnit u).
Proof. destruct u; reflexivity. Qed.

(** ** Characters of a formatted number *)

Lemma occurs_app (c : ascii) (a b : string) :
  occurs c (a ++ b) = occurs c a || occurs c b.
Proof.
  induction a as [|x a IH]; simpl; [reflexivity|].
  rewrite IH. apply orb_assoc.
Qed.

Lemma digit_char_not_k (n : Z) :
  Ascii.eqb (Strconv.digit_char (n mod 10)) "k" = false.
Proof.
  assert (H : 0 <= n mod 10 < 10) by (apply Z.mod_pos_bound; lia).
  assert (D : n mod 10 = 0 \/ n mod 10 = 1 \/ n mod 10 = 2 \/ n mod 10 = 3 \/
              n mod 10 = 4 \/ n mod 10 = 5 \/ n mod 10 = 6 \/ n mod 10 = 7 \/
              n mod 10 = 8 \/ n mod 10 = 9) by lia.
  repeat (destruct D as [D|D]; [rewrite D; reflexivity|]).
  rewrite D; reflexivity.
Qed.

Lemma occurs_cons (c a : ascii) (s : string) :
  occurs c (String a s) = Ascii.eqb a c || occurs c s.
Proof. reflexivity. Qed.

Lemma utoa_loop_no_k (fuel : nat) :
  forall n acc, occurs "k" acc = false ->
                occurs "k" (Strconv.utoa_loop fuel n acc) = false.
Proof.
  induction fuel as [|fuel IH]; intros n acc Hacc;
    cbn [Strconv.utoa_loop]; [exact Hacc|].
  assert (Hacc' : occurs "k" (String (Strconv.digit_char (n mod 10)) acc) = false)
    by (rewrite occurs_cons, digit_char_not_k, Hacc; reflexivity).
  destruct (n / 10 =? 0); [exact Hacc'|].
  apply IH; exact Hacc'.
Qed.

Lemma utoa_no_k (n : Z) : occurs "k" (Strconv.utoa n) = false.
Proof. apply utoa_loop_no_k; reflexivity. Qed.

Lemma zeros_no_k (k : nat) : occurs "k" (Strconv.zeros k) = false.
Proof. induction k as [|k IH]; simpl; [reflexivity|exact IH]. Qed.

Lemma fmtF_no_k (d x : Z) : occurs "k" (Strconv.fmtF d x) = false.
Proof.
  unfold Strconv.fmtF. destruct (0 <=? x); [apply utoa_no_k|].
  rewrite !occurs_app, !utoa_no_k, zeros_no_k. reflexivity.
Qed.

Lemma formatFloat_no_k (f : F64.float64) : occurs "k" (formatFloat f) = false.
Proof.
  unfold formatFloat, Strconv.FormatFloat_f_shortest.
  destruct f as [[|]|[|]| |s m e]; try reflexivity.
  destruct (Strconv.shortest m e) as [d x].
  rewrite occurs_app, fmtF_no_k. destruct s; reflexivity.
Qed.

Lemma append_assoc (a b c : string) : ((a ++ b) ++ c = a ++ (b ++ c))%string.
Proof. induction a as [|x a IH]; simpl; [reflexivity|]. now rewrite IH. Qed.

Lemma append_last_inj (c : ascii) :
  forall a b : string, (a ++ String c "" = b ++ String c "")%string -> a = b.
Proof.
  induction a as [|x a IH]; intros [|y b] H; simpl in H.
  - reflexivity.
  - destruct b; simpl in H; discriminate H.
  - destruct a; simpl in H; discriminate H.
  - injection H as -> H. f_equal. apply IH; exact H.
Qed.

(** A number followed by ["km"] is never a number followed by ["m"]. *)
Lemma km_suffix_differs (f g : F64.float64) :
  (formatFloat f ++ "km" <> formatFloat g ++ "m")%string.
Proof.
  intros H.
  change "km"%string with ("k" ++ "m")%string in H.
  rewrite <- append_assoc in H.
  apply append_last_inj in H.
  pose proof (formatFloat_no_k g) as Hg.
  rewrite <- H, occurs_app, formatFloat_no_k in Hg. discriminate Hg.
Qed.

(** ** The unit cascade of [String] *)

Lemma Lengths_String_cases (l : Length) :
  (l < Lengths.Nanometer -> Lengths.String l = "0"%string) /\
  (Lengths.Nanometer <= l < Lengths.Micrometer ->
     Lengths.String l = (Strconv.utoa (l / Lengths.Nanometer) ++ "nm")%string) /\
  (Lengths.Micrometer <= l < Lengths.Millimeter ->
     Lengths.String l = (formatFloat (Lengths.Length_Micrometers l) ++ "μm")%string) /\
  (Lengths.Millimeter <= l < Lengths.Centimeter ->
     Lengths.String l = (formatFloat (Lengths.Length_Millimeters l) ++ "mm")%string) /\
  (Lengths.Centimeter <= l < Lengths.Meter ->
     Lengths.String l = (formatFloat (Lengths.Length_Centimeters l) ++ "cm")%string) /\
  (Lengths.Meter <= l < Lengths.Kilometer ->
     Lengths.String l = (formatFloat (Lengths.Length_Meters l) ++ "m")%string) /\
  (Lengths.Kilometer <= l ->
     Lengths.String l = (formatFloat (Lengths.Length_Kilometers l) ++ "km")%string).
Proof.
  unfold Lengths.String.
  change Lengths.Nanometer with 1; change Lengths.Micrometer with 1000;
  change Lengths.Millimeter with 1000000; change Lengths.Centimeter with 10000000;
  change Lengths.Meter with 1000000000; change Lengths.Kilometer with 1000000000000.
  repeat split; intros H;
    repeat match goal with
           | |- context [?a <? ?b] => destruct (Z.ltb_spec a b); try lia
           end; reflexivity.
Qed.

Lemma Legacy_String_cases (l : Length) :
  (l < Legacy.Nanometer -> Legacy.String l = "0nm"%string) /\
  (Legacy.Nanometer <= l < Legacy.Micrometer ->
     Legacy.String l = (Strconv.utoa (l / Legacy.Nanometer) ++ "nm")%string) /\
  (Legacy.Micrometer <= l < Legacy.Millimeter ->
     Legacy.String l = (formatFloat (Legacy.Length_Micrometers l) ++ "μm")%string) /\
  (Legacy.Millimeter <= l < Legacy.Centimeter ->
     Legacy.String l = (formatFloat (Legacy.Length_Millimeters l) ++ "mm")%string) /\
  (Legacy.Centimeter <= l < Legacy.Meter ->
     Legacy.String l = (formatFloat (Legacy.Length_Centimeters l) ++ "cm")%string) /\
  (Legacy.Meter <= l ->
     Legacy.String l = (formatFloat (Legacy.Length_Meters l) ++ "m")%string).
Proof.
  unfold Legacy.String.
  change Legacy.Nanometer with 1; change Legacy.Micrometer with 1000;
  change Legacy.Millimeter with 1000000; change Legacy.Centimeter with 10000000;
  change Legacy.Meter with 1000000000.
  repeat split; intros H;
    repeat match goal with
           | |- context [?a <? ?b] => destruct (Z.ltb_spec a b); try lia
           end; reflexivity.
Qed.

(** ** Rounding to binary64 *)

Lemma digits2_pos_bounds (p : positive) :
  2 ^ (Zpos (digits2_pos p) - 1) <= Zpos p < 2 ^ Zpos (digits2_pos p).
Proof.
  induction p as [p IH|p IH|]; cbn [digits2_pos].
  - rewrite Pos2Z.inj_succ, (Pos2Z.inj_xI p).
    replace (Z.succ (Zpos (digits2_pos p)) - 1) with (Z.succ (Zpos (digits2_pos p) - 1)) by lia.
    rewrite !Z.pow_succ_r by lia.
    generalize dependent (2 ^ (Zpos (digits2_pos p) - 1)).
    generalize (2 ^ Zpos (digits2_pos p)). intros; lia.
  - rewrite Pos2Z.inj_succ, (Pos2Z.inj_xO p).
    replace (Z.succ (Zpos (digits2_pos p)) - 1) with (Z.succ (Zpos (digits2_pos p) - 1)) by lia.
    rewrite !Z.pow_succ_r by lia.
    generalize dependent (2 ^ (Zpos (digits2_pos p) - 1)).
    generalize (2 ^ Zpos (digits2_pos p)). intros; lia.
  - simpl. lia.
Qed.

Lemma Zdigits2_bounds (m : Z) :
  0 < m -> 2 ^ (Zdigits2 m - 1) <= m < 2 ^ Zdigits2 m.
Proof.
  destruct m as [|p|p]; try lia. intros _. apply digits2_pos_bounds.
Qed.

Lemma Zdigits2_nonneg (m : Z) : 0 <= Zdigits2 m.
Proof. destruct m; simpl; lia. Qed.

Lemma Zdigits2_unique (m d : Z) :
  2 ^ (d - 1) <= m < 2 ^ d -> 0 < d -> Zdigits2 m = d.
Proof.
  intros [Hlo Hhi] Hd.
  assert (Hm : 0 < m) by (pose proof (Z.pow_pos_nonneg 2 (d - 1)); lia).
  destruct (Zdigits2_bounds m Hm) as [Hlo' Hhi'].
  pose proof (Zdigits2_nonneg m) as Hn.
  assert (A : Zdigits2 m - 1 < d).
  { apply (Z.pow_lt_mono_r_iff 2); lia. }
  assert (B : d - 1 < Zdigits2 m).
  { apply (Z.pow_lt_mono_r_iff 2); lia. }
  lia.
Qed.

Lemma inbetween_compat (m : Z) (l : location) (x y : Q) :
  (x == y)%Q -> inbetween m l x -> inbetween m l y.
Proof.
  intros E. destruct l as [|c]; simpl.
  - intros H. rewrite <- E. exact H.
  - intros (A & B & C). rewrite <- E. auto.
Qed.

Lemma inbetween_bounds (m : Z) (l : location) (x : Q) :
  inbetween m l x -> (inject_Z m <= x)%Q /\ (x < inject_Z m + 1)%Q.
Proof.
  destruct l as [|c]; simpl.
  - intros H. rewrite H. split; lra.
  - intros (A & B & _). split; lra.
Qed.

Lemma inject_Z_xO (p : positive) : (inject_Z (Zpos p~0) == 2 * inject_Z (Zpos p))%Q.
Proof. rewrite (Pos2Z.inj_xO p), inject_Z_mult. reflexivity. Qed.

Lemma inject_Z_xI (p : positive) : (inject_Z (Zpos p~1) == 2 * inject_Z (Zpos p) + 1)%Q.
Proof. rewrite (Pos2Z.inj_xI p), inject_Z_plus, inject_Z_mult. reflexivity. Qed.

Lemma shr_1_spec (mrs : shr_record) (x y : Q) :
  0 <= shr_m mrs ->
  inbetween (shr_m mrs) (loc_of_shr_record mrs) x ->
  (x == 2 * y)%Q ->
  0 <= shr_m (shr_1 mrs) /\
  shr_m (shr_1 mrs) = shr_m mrs / 2 /\
  inbetween (shr_m (shr_1 mrs)) (loc_of_shr_record (shr_1 mrs)) y.
Proof.
  destruct mrs as [m r s]. cbn [shr_m]. intros Hm H E.
  destruct m as [|[p|p|]|]; try lia.
  - split; [simpl; lia|]. split; [reflexivity|].
    destruct r, s; cbn in *; q_norm;
      repeat match goal with H : _ /\ _ |- _ => destruct H end;
      q_compare; repeat split; q_compare; lra.
  - split; [simpl; lia|]. split; [cbn [shr_1 shr_m]; rewrite (Pos2Z.inj_xI p); Z.div_mod_to_equations; lia|].
    pose proof (inject_Z_xI p) as E'.
    destruct r, s; cbn in *; q_norm;
      repeat match goal with H : _ /\ _ |- _ => destruct H end;
      q_compare; repeat split; q_compare; lra.
  - split; [simpl; lia|]. split; [cbn [shr_1 shr_m]; rewrite (Pos2Z.inj_xO p); Z.div_mod_to_equations; lia|].
    pose proof (inject_Z_xO p) as E'.
    destruct r, s; cbn in *; q_norm;
      repeat match goal with H : _ /\ _ |- _ => destruct H end;
      q_compare; repeat split; q_compare; lra.
  - split; [simpl; lia|]. split; [reflexivity|].
    destruct r, s; cbn in *; q_norm;
      repeat match goal with H : _ /\ _ |- _ => destruct H end;
      q_compare; repeat split; q_compare; lra.
Qed.

Lemma pow2_xI (k : positive) : 2 ^ Zpos k~1 = 2 * (2 ^ Zpos k * 2 ^ Zpos k).
Proof.
  rewrite (Pos2Z.inj_xI k).
  replace (2 * Zpos k + 1) with (1 + (Zpos k + Zpos k)) by lia.
  rewrite !Z.pow_add_r by lia. reflexivity.
Qed.

Lemma pow2_xO (k : positive) : 2 ^ Zpos k~0 = 2 ^ Zpos k * 2 ^ Zpos k.
Proof.
  rewrite (Pos2Z.inj_xO k).
  replace (2 * Zpos k) with (Zpos k + Zpos k) by lia.
  rewrite !Z.pow_add_r by lia. reflexivity.
Qed.

Lemma iter_shr_1_spec (k : positive) :
  forall (mrs : shr_record) (x y : Q),
    0 <= shr_m mrs ->
    inbetween (shr_m mrs) (loc_of_shr_record mrs) x ->
    (x == inject_Z (2 ^ Zpos k) * y)%Q ->
    0 <= shr_m (iter_pos shr_1 k mrs) /\
    shr_m (iter_pos shr_1 k mrs) = shr_m mrs / 2 ^ Zpos k /\
    inbetween (shr_m (iter_pos shr_1 k mrs))
              (loc_of_shr_record (iter_pos shr_1 k mrs)) y.
Proof.
  induction k as [k IH|k IH|]; intros mrs x y Hm H E; cbn [iter_pos].
  - assert (Hp : 0 < 2 ^ Zpos k) by (apply Z.pow_pos_nonneg; lia).
    rewrite pow2_xI, !inject_Z_mult in E.
    set (a := inject_Z (2 ^ Zpos k)) in *.
    destruct (shr_1_spec mrs x (a * (a * y))%Q Hm H) as (A1 & A2 & A3).
    { rewrite E. change (inject_Z 2) with 2%Q. ring. }
    destruct (IH _ _ (a * y)%Q A1 A3) as (B1 & B2 & B3); [reflexivity|].
    destruct (IH _ _ y B1 B3) as (C1 & C2 & C3); [reflexivity|].
    split; [exact C1|]. split; [|exact C3].
    rewrite C2, B2, A2, pow2_xI, !Z.div_div by lia. reflexivity.
  - assert (Hp : 0 < 2 ^ Zpos k) by (apply Z.pow_pos_nonneg; lia).
    rewrite pow2_xO, !inject_Z_mult in E.
    set (a := inject_Z (2 ^ Zpos k)) in *.
    destruct (IH _ _ (a * y)%Q Hm H) as (B1 & B2 & B3).
    { rewrite E. ring. }
    destruct (IH _ _ y B1 B3) as (C1 & C2 & C3); [reflexivity|].
    split; [exact C1|]. split; [|exact C3].
    rewrite C2, B2, pow2_xO, !Z.div_div by lia. reflexivity.
  - apply (shr_1_spec mrs x y Hm H). rewrite E. reflexivity.
Qed.

Lemma shr_spec (mrs : shr_record) (e n : Z) (x y : Q) :
  0 <= shr_m mrs ->
  inbetween (shr_m mrs) (loc_of_shr_record mrs) x ->
  (x == inject_Z (2 ^ Z.max n 0) * y)%Q ->
  snd (shr mrs e n) = e + Z.max n 0 /\
  0 <= shr_m (fst (shr mrs e n)) /\
  shr_m (fst (shr mrs e n)) = shr_m mrs / 2 ^ Z.max n 0 /\
  inbetween (shr_m (fst (shr mrs e n)))
            (loc_of_shr_record (fst (shr mrs e n))) y.
Proof.
  intros Hm H E. destruct n as [|p|p]; cbn [shr fst snd].
  - cbn in E. split; [cbn; lia|]. split; [exact Hm|]. split; [cbn; now rewrite Z.div_1_r|].
    apply (inbetween_compat _ _ x); [|exact H]. rewrite E. ring.
  - replace (Z.max (Zpos p) 0) with (Zpos p) in * by lia.
    split; [reflexivity|]. apply (iter_shr_1_spec p mrs x y Hm H E).
  - replace (Z.max (Zneg p) 0) with 0 in * by lia.
    cbn in E. split; [lia|]. split; [exact Hm|]. split; [now rewrite Z.div_1_r|].
    apply (inbetween_compat _ _ x); [|exact H]. rewrite E. ring.
Qed.

Lemma loc_of_shr_record_of_loc (m : Z) (l : location) :
  loc_of_shr_record (shr_record_of_loc m l) = l /\
  shr_m (shr_record_of_loc m l) = m.
Proof. destruct l as [|[| |]]; split; reflexivity. Qed.

Lemma round_nearest_even_spec (m : Z) (l : location) (x : Q) :
  inbetween m l x ->
  m <= round_nearest_even m l <= m + 1 /\
  (inject_Z (round_nearest_even m l) - (1 # 2) <= x)%Q /\
  (x <= inject_Z (round_nearest_even m l) + (1 # 2))%Q /\
  (l = loc_Exact -> round_nearest_even m l = m).
Proof.
  intros H.
  assert (E1 : (inject_Z (m + 1) == inject_Z m + 1)%Q)
    by (rewrite inject_Z_plus; reflexivity).
  destruct l as [|[| |]]; cbn in *.
  - rewrite H. repeat split; try lia; try lra.
  - destruct H as (A & B & C). q_compare.
    destruct (Z.even m); repeat split; try lia; try discriminate; try lra.
  - destruct H as (A & B & C). q_compare.
    repeat split; try lia; try discriminate; lra.
  - destruct H as (A & B & C). q_compare.
    repeat split; try lia; try discriminate; lra.
Qed.

Lemma fexp_eq (e : Z) : fexp F64.prec F64.emax e = Z.max (e - 53) (-1074).
Proof. reflexivity. Qed.

Lemma shr_nonpos (mrs : shr_record) (e n : Z) : n <= 0 -> shr mrs e n = (mrs, e).
Proof. destruct n; intros H; try reflexivity; lia. Qed.

Lemma second_shift (s : bool) (m1 e1 : Z) :
  0 <= m1 <= 2 ^ 53 -> -1074 <= e1 ->
  (let '(mrs, e) := shr_fexp F64.prec F64.emax m1 e1 loc_Exact in
   match shr_m mrs with
   | Z0 => S754_zero s
   | Zpos m => if e <=? F64.emax - F64.prec then S754_finite s m e
               else S754_infinity s
   | Zneg _ => S754_nan
   end) = pack s m1 e1.
Proof.
  intros Hm He. unfold shr_fexp, pack. rewrite fexp_eq.
  destruct (Z.eqb_spec m1 0) as [->|Hz].
  - rewrite shr_nonpos by (cbn [Zdigits2]; lia). reflexivity.
  - destruct (Z.ltb_spec m1 (2 ^ 53)) as [Hlt|Hge].
    + assert (Hd : Zdigits2 m1 <= 53).
      { destruct (Zdigits2_bounds m1 ltac:(lia)) as [Hlo _].
        assert (Zdigits2 m1 - 1 < 53); [|lia].
        apply (Z.pow_lt_mono_r_iff 2); lia. }
      rewrite shr_nonpos by lia.
      destruct m1 as [|p|p]; try lia. reflexivity.
    + assert (m1 = 2 ^ 53) by lia. subst m1.
      change (Zdigits2 (2 ^ 53)) with 54.
      replace (Z.max (54 + e1 - 53) (-1074) - e1) with 1 by lia.
      reflexivity.
Qed.

Theorem binary_round_aux_spec (s : bool) (mx ex : Z) (lx : location) (x y : Q) :
  0 <= mx ->
  inbetween mx lx x ->
  let e' := Z.max ex (fexp F64.prec F64.emax (Zdigits2 mx + ex)) in
  (x == inject_Z (2 ^ (e' - ex)) * y)%Q ->
  exists m1 : Z,
    mx / 2 ^ (e' - ex) <= m1 <= 2 ^ 53 /\
    (inject_Z m1 - (1 # 2) <= y)%Q /\
    (y <= inject_Z m1 + (1 # 2))%Q /\
    (lx = loc_Exact -> e' = ex -> m1 = mx) /\
    binary_round_aux F64.prec F64.emax s mx ex lx = pack s m1 e'.
Proof.
  intros Hm H e' E.
  set (n1 := fexp F64.prec F64.emax (Zdigits2 mx + ex) - ex).
  assert (Hn : e' - ex = Z.max n1 0) by (unfold e', n1; lia).
  destruct (loc_of_shr_record_of_loc mx lx) as [Rl Rm].
  assert (H0 : inbetween (shr_m (shr_record_of_loc mx lx))
                         (loc_of_shr_record (shr_record_of_loc mx lx)) x)
    by (rewrite Rl, Rm; exact H).
  rewrite Hn in E.
  destruct (shr_spec (shr_record_of_loc mx lx) ex n1 x y
              ltac:(rewrite Rm; exact Hm) H0 E) as (S1 & S2 & S3 & S4).
  unfold binary_round_aux, shr_fexp. fold n1.
  destruct (shr (shr_record_of_loc mx lx) ex n1) as [mrs' e1].
  cbn [fst snd] in S1, S2, S3, S4. rewrite Rm in S3.
  destruct (round_nearest_even_spec _ _ _ S4) as (R1 & R2 & R3 & R4).
  set (m1 := round_nearest_even (shr_m mrs') (loc_of_shr_record mrs')) in *.
  assert (He1 : e1 = e') by lia.
  assert (Hlow : -1074 <= e1) by (rewrite He1; unfold e'; rewrite fexp_eq; lia).
  assert (Hup : shr_m mrs' < 2 ^ 53).
  { rewrite S3. apply Z.div_lt_upper_bound; [apply Z.pow_pos_nonneg; lia|].
    destruct (Z.eq_dec mx 0) as [->|Hnz].
    - apply Z.mul_pos_pos; apply Z.pow_pos_nonneg; lia.
    - destruct (Zdigits2_bounds mx ltac:(lia)) as [_ Hhi].
      pose proof (Zdigits2_nonneg mx) as Hd.
      eapply Z.lt_le_trans; [exact Hhi|].
      rewrite <- Z.pow_add_r by lia.
      apply Z.pow_le_mono_r; [lia|].
      unfold n1. rewrite fexp_eq. lia. }
  exists m1. rewrite Hn, <- S3.
  split; [lia|]. split; [exact R2|]. split; [exact R3|]. split.
  - intros -> Hee. assert (Hz : Z.max n1 0 = 0) by lia.
    rewrite Hz, Z.div_1_r in S3.
    unfold m1. destruct mrs' as [m' r' s'].
    cbn [shr_m] in *. subst m'.
    assert (Hl : loc_of_shr_record {| shr_m := mx; shr_r := r'; shr_s := s' |} = loc_Exact).
    { cbn [inbetween] in H. rewrite H, Hz in E.
      change (2 ^ 0) with 1 in E. change (inject_Z 1) with 1%Q in E.
      destruct r', s'; cbn [loc_of_shr_record inbetween] in S4 |- *;
        try reflexivity; destruct S4 as (A & B & _); lra. }
    rewrite Hl. reflexivity.
  - rewrite <- He1. apply second_shift; lia.
Qed.

Lemma pow2_pos (e : Z) : (0 < pow2 e)%Q.
Proof. apply Qpower_0_lt. reflexivity. Qed.

Lemma pow2_add (a b : Z) : (pow2 (a + b) == pow2 a * pow2 b)%Q.
Proof. apply Qpower_plus. discriminate. Qed.

Lemma pow2_inject (n : Z) : 0 <= n -> (inject_Z (2 ^ n) == pow2 n)%Q.
Proof. intros H. apply Zpower_Qpower; exact H. Qed.

Lemma pow2_le (a b : Z) : a <= b -> (pow2 a <= pow2 b)%Q.
Proof. intros H. apply Qpower_le_compat_l; [exact H|discriminate]. Qed.

Lemma pow2_lt_inv (a b : Z) : (pow2 a < pow2 b)%Q -> a < b.
Proof. intros H. apply (Qpower_lt_compat_l_inv 2); [exact H|reflexivity]. Qed.

Lemma inject_Z_le (a b : Z) : a <= b -> (inject_Z a <= inject_Z b)%Q.
Proof. intros H. rewrite <- Zle_Qle. exact H. Qed.

Lemma inject_Z_lt (a b : Z) : a < b -> (inject_Z a < inject_Z b)%Q.
Proof. intros H. rewrite <- Zlt_Qlt. exact H. Qed.

Lemma pack_value_gen (m e : Z) :
  0 <= m <= 2 ^ 53 ->
  F64.nonneg (pack false m e) = true /\
  (e <= 970 -> F64.finite (pack false m e) = true) /\
  (F64.finite (pack false m e) = true ->
   (F64.value (pack false m e) == inject_Z m * pow2 e)%Q).
Proof.
  intros Hm. unfold pack.
  destruct (Z.eqb_spec m 0) as [->|Hz].
  - split; [reflexivity|]. split; [reflexivity|]. intros _.
    cbn [F64.value]. change (inject_Z 0) with 0%Q. ring.
  - destruct (Z.ltb_spec m (2 ^ 53)) as [Hlt|Hge].
    + destruct (Z.leb_spec e 971).
      * split; [reflexivity|]. split; [reflexivity|]. intros _.
        cbn [F64.value]. rewrite Z2Pos.id by lia. reflexivity.
      * split; [reflexivity|]. split; [lia|]. discriminate.
    + destruct (Z.leb_spec (e + 1) 971).
      * assert (m = 2 ^ 53) by lia. subst m.
        split; [reflexivity|]. split; [reflexivity|]. intros _.
        cbn [F64.value]. fold (pow2 (e + 1)).
        rewrite pow2_add. change (pow2 1) with 2%Q.
        change (inject_Z (Zpos (2 ^ 52))) with (inject_Z (2 ^ 52)).
        change (inject_Z (2 ^ 53)) with (inject_Z (2 ^ 52) * 2)%Q. ring.
      * split; [reflexivity|]. split; [lia|]. discriminate.
Qed.

(** The rounded result, as a rational: within half a unit in the last
    place of the exact value [x * 2^ex]. *)
Theorem round_aux_value_gen (mx ex : Z) (lx : location) (x : Q) :
  0 <= mx ->
  inbetween mx lx x ->
  let e' := Z.max ex (fexp F64.prec F64.emax (Zdigits2 mx + ex)) in
  let r := binary_round_aux F64.prec F64.emax false mx ex lx in
  F64.nonneg r = true /\
  (e' <= 970 -> F64.finite r = true) /\
  (F64.finite r = true ->
   (x * pow2 ex - (1 # 2) * pow2 e' <= F64.value r)%Q /\
   (F64.value r <= x * pow2 ex + (1 # 2) * pow2 e')%Q /\
   (lx = loc_Exact -> e' = ex -> F64.value r == x * pow2 ex)%Q /\
   (inject_Z (mx / 2 ^ (e' - ex)) * pow2 e' <= F64.value r)%Q).
Proof.
  intros Hm H e' r.
  assert (Hn : 0 <= e' - ex) by (unfold e'; lia).
  set (a := inject_Z (2 ^ (e' - ex))).
  assert (Ha : (a == pow2 (e' - ex))%Q) by (apply pow2_inject; exact Hn).
  assert (Hap : (0 < a)%Q) by (rewrite Ha; apply pow2_pos).
  assert (E : (x == a * (x / a))%Q) by (field; lra).
  destruct (binary_round_aux_spec false mx ex lx x (x / a)%Q Hm H E)
    as (m1 & B1 & B2 & B3 & B4 & B5).
  fold e' in B1, B4, B5. fold r in B5.
  destruct (pack_value_gen m1 e' ltac:(split; [|lia];
    apply Z.le_trans with (2 := proj1 B1); apply Z.div_pos;
    [lia|apply Z.pow_pos_nonneg; lia])) as (P2 & P1 & P3).
  rewrite <- B5 in P1, P2, P3.
  split; [exact P2|]. split; [exact P1|]. intros Hfin.
  specialize (P3 Hfin).
  assert (W : (pow2 e' == a * pow2 ex)%Q).
  { rewrite Ha, <- pow2_add. replace (e' - ex + ex) with e' by lia. reflexivity. }
  pose proof (pow2_pos ex) as Hw.
  assert (Y : (x * pow2 ex == (x / a) * pow2 e')%Q) by (rewrite W; field; lra).
  pose proof (pow2_pos e') as Hw'.
  rewrite P3, Y.
  split; [nra|]. split; [nra|]. split.
  - intros Hl Hee. rewrite (B4 Hl Hee), <- Y.
    rewrite Hl in H. cbn [inbetween] in H. rewrite H, Hee. reflexivity.
  - apply Qmult_le_compat_r; [|lra].
    apply inject_Z_le. lia.
Qed.

Corollary round_aux_value (mx ex : Z) (lx : location) (x : Q) :
  0 <= mx ->
  inbetween mx lx x ->
  let e' := Z.max ex (fexp F64.prec F64.emax (Zdigits2 mx + ex)) in
  e' <= 970 ->
  let r := binary_round_aux F64.prec F64.emax false mx ex lx in
  F64.finite r = true /\
  F64.nonneg r = true /\
  (x * pow2 ex - (1 # 2) * pow2 e' <= F64.value r)%Q /\
  (F64.value r <= x * pow2 ex + (1 # 2) * pow2 e')%Q /\
  (lx = loc_Exact -> e' = ex -> F64.value r == x * pow2 ex)%Q /\
  (inject_Z (mx / 2 ^ (e' - ex)) * pow2 e' <= F64.value r)%Q.
Proof.
  intros Hm H e' He r.
  destruct (round_aux_value_gen mx ex lx x Hm H) as (N & F & B).
  split; [exact (F He)|]. split; [exact N|]. exact (B (F He)).
Qed.

Lemma pow2_inject_lower (m : Z) :
  0 < m -> (pow2 (Zdigits2 m - 1) <= inject_Z m)%Q.
Proof.
  intros H. destruct (Zdigits2_bounds m H) as [Hlo _].
  assert (0 < Zdigits2 m) by (destruct m; simpl; lia).
  rewrite <- pow2_inject by lia. apply inject_Z_le; exact Hlo.
Qed.

Lemma pow2_inject_upper (m : Z) :
  0 <= m -> (inject_Z m + 1 <= pow2 (Zdigits2 m))%Q.
Proof.
  intros H. pose proof (Zdigits2_nonneg m) as Hd.
  rewrite <- pow2_inject by lia.
  change 1%Q with (inject_Z 1). rewrite <- inject_Z_plus.
  apply inject_Z_le.
  destruct (Z.eq_dec m 0) as [->|Hz]; [simpl; lia|].
  destruct (Zdigits2_bounds m ltac:(lia)). lia.
Qed.

(** The position of the leading bit, from bounds on the value. *)
Lemma digits_upper (mx ex k : Z) (x : Q) :
  0 < mx -> (inject_Z mx <= x)%Q -> (x * pow2 ex < pow2 k)%Q ->
  Zdigits2 mx + ex <= k.
Proof.
  intros Hm Hx Hk.
  pose proof (pow2_inject_lower mx Hm) as Hl.
  pose proof (pow2_pos ex) as Hw.
  assert (A : (pow2 (Zdigits2 mx - 1 + ex) < pow2 k)%Q).
  { rewrite pow2_add. eapply Qle_lt_trans; [|exact Hk].
    apply Qmult_le_compat_r; lra. }
  apply pow2_lt_inv in A. lia.
Qed.

Lemma digits_lower (mx ex j : Z) (x : Q) :
  0 <= mx -> (x < inject_Z mx + 1)%Q -> (pow2 j <= x * pow2 ex)%Q ->
  j < Zdigits2 mx + ex.
Proof.
  intros Hm Hx Hj.
  pose proof (pow2_inject_upper mx Hm) as Hu.
  pose proof (pow2_pos ex) as Hw.
  apply pow2_lt_inv. rewrite pow2_add.
  eapply Qle_lt_trans; [exact Hj|].
  apply Qmult_lt_compat_r; lra.
Qed.

(** Relative error of a rounding in the normal range. *)
Theorem round_aux_rel_gen (mx ex : Z) (lx : location) (x : Q) :
  0 < mx ->
  inbetween mx lx x ->
  ex <= fexp F64.prec F64.emax (Zdigits2 mx + ex) ->
  (pow2 (-1022) <= x * pow2 ex)%Q ->
  let r := binary_round_aux F64.prec F64.emax false mx ex lx in
  F64.nonneg r = true /\
  ((x * pow2 ex < pow2 1023)%Q -> F64.finite r = true) /\
  (F64.finite r = true ->
   (x * pow2 ex * (1 - u53) <= F64.value r)%Q /\
   (F64.value r <= x * pow2 ex * (1 + u53))%Q).
Proof.
  intros Hm H Hdig Hlo r.
  destruct (inbetween_bounds _ _ _ H) as [Bl Bu].
  pose proof (digits_lower mx ex (-1022) x ltac:(lia) Bu Hlo) as Dl.
  rewrite fexp_eq in Hdig.
  assert (He : Z.max ex (fexp F64.prec F64.emax (Zdigits2 mx + ex))
               = Zdigits2 mx + ex - 53) by (rewrite fexp_eq; lia).
  destruct (round_aux_value_gen mx ex lx x ltac:(lia) H) as (A2 & A1 & A3).
  fold r in A1, A2, A3. rewrite He in A1, A3.
  split; [exact A2|]. split.
  - intros Hhi. apply A1.
    pose proof (digits_upper mx ex 1023 x Hm Bl Hhi) as Du. lia.
  - intros Hfin. destruct (A3 Hfin) as (A4 & A5 & _).
    assert (B : ((1 # 2) * pow2 (Zdigits2 mx + ex - 53) <= x * pow2 ex * u53)%Q).
    { replace (Zdigits2 mx + ex - 53) with (1 + ((Zdigits2 mx - 1) + ex + -53)) by lia.
      rewrite (pow2_add 1), !pow2_add. fold u53. change (pow2 1) with 2%Q.
      pose proof (pow2_inject_lower mx Hm) as Hl.
      pose proof (pow2_pos ex) as Hw. pose proof (pow2_pos (-53)) as Hu.
      fold u53 in Hu.
      assert (C : (pow2 (Zdigits2 mx - 1) * pow2 ex <= x * pow2 ex)%Q)
        by (apply Qmult_le_compat_r; lra).
      assert (C' : (pow2 (Zdigits2 mx - 1) * pow2 ex * u53 <= x * pow2 ex * u53)%Q)
        by (apply Qmult_le_compat_r; lra).
      lra. }
    split; lra.
Qed.

Corollary round_aux_rel (mx ex : Z) (lx : location) (x : Q) :
  0 < mx ->
  inbetween mx lx x ->
  ex <= fexp F64.prec F64.emax (Zdigits2 mx + ex) ->
  (pow2 (-1022) <= x * pow2 ex)%Q ->
  (x * pow2 ex < pow2 1023)%Q ->
  let r := binary_round_aux F64.prec F64.emax false mx ex lx in
  F64.finite r = true /\
  F64.nonneg r = true /\
  (x * pow2 ex * (1 - u53) <= F64.value r)%Q /\
  (F64.value r <= x * pow2 ex * (1 + u53))%Q.
Proof.
  intros Hm H Hdig Hlo Hhi r.
  destruct (round_aux_rel_gen mx ex lx x Hm H Hdig Hlo) as (N & F & B).
  split; [exact (F Hhi)|]. split; [exact N|]. exact (B (F Hhi)).
Qed.

Lemma pos_iter_xO (m d : positive) :
  Zpos (Pos.iter xO m d) = Zpos m * 2 ^ Zpos d.
Proof.
  induction d as [|d IH] using Pos.peano_ind.
  - cbn [Pos.iter]. rewrite (Pos2Z.inj_xO m). change (2 ^ 1) with 2. lia.
  - rewrite Pos.iter_succ, (Pos2Z.inj_xO (Pos.iter xO m d)), IH.
    rewrite Pos2Z.inj_succ, Z.pow_succ_r by lia. lia.
Qed.

Lemma shl_align_spec (m : positive) (e e0 : Z) :
  snd (shl_align m e e0) = Z.min e e0 /\
  Zpos (fst (shl_align m e e0)) = Zpos m * 2 ^ (e - Z.min e e0).
Proof.
  unfold shl_align. destruct (e0 - e) as [|d|d] eqn:E; cbn [fst snd].
  - replace (Z.min e e0) with e by lia. rewrite Z.sub_diag. cbn. lia.
  - replace (Z.min e e0) with e by lia. rewrite Z.sub_diag. cbn. lia.
  - replace (Z.min e e0) with e0 by lia. split; [reflexivity|].
    replace (e - e0) with (Zpos d) by lia. apply pos_iter_xO.
Qed.

Lemma Zdigits2_shift (m k : Z) :
  0 < m -> 0 <= k -> Zdigits2 (m * 2 ^ k) = Zdigits2 m + k.
Proof.
  intros Hm Hk. destruct (Zdigits2_bounds m Hm) as [Hlo Hhi].
  assert (Hd : 0 < Zdigits2 m) by (destruct m; simpl; lia).
  assert (Hp : 0 < 2 ^ k) by (apply Z.pow_pos_nonneg; lia).
  apply Zdigits2_unique; [|lia].
  replace (Zdigits2 m + k - 1) with (Zdigits2 m - 1 + k) by lia.
  rewrite !Z.pow_add_r by lia. split.
  - apply Z.mul_le_mono_nonneg_r; lia.
  - apply Z.mul_lt_mono_pos_r; lia.
Qed.

(** [binary_round] feeds [binary_round_aux] an exact mantissa with enough
    digits. *)
Lemma binary_round_unfold (p : positive) (e : Z) :
  exists (mz : positive) (ez : Z),
    binary_round F64.prec F64.emax false p e
    = binary_round_aux F64.prec F64.emax false (Zpos mz) ez loc_Exact /\
    ez = Z.min e (fexp F64.prec F64.emax (Zdigits2 (Zpos p) + e)) /\
    Zdigits2 (Zpos mz) + ez = Zdigits2 (Zpos p) + e /\
    (inject_Z (Zpos mz) * pow2 ez == inject_Z (Zpos p) * pow2 e)%Q.
Proof.
  unfold binary_round.
  change (Zpos (digits2_pos p)) with (Zdigits2 (Zpos p)).
  set (F := fexp F64.prec F64.emax (Zdigits2 (Zpos p) + e)).
  destruct (shl_align_spec p e F) as [S1 S2].
  destruct (shl_align p e F) as [mz ez]. cbn [fst snd] in S1, S2.
  exists mz, ez. split; [reflexivity|]. split; [exact S1|].
  assert (Hk : 0 <= e - Z.min e F) by lia.
  split.
  - rewrite S2, Zdigits2_shift by lia. lia.
  - rewrite S2, inject_Z_mult, pow2_inject by lia.
    rewrite <- Qmult_assoc, <- pow2_add, S1.
    replace (e - Z.min e F + Z.min e F) with e by lia. reflexivity.
Qed.

Theorem binary_round_rel (p : positive) (e : Z) :
  let v := (inject_Z (Zpos p) * pow2 e)%Q in
  (pow2 (-1022) <= v)%Q -> (v < pow2 1023)%Q ->
  let r := binary_round F64.prec F64.emax false p e in
  F64.finite r = true /\ F64.nonneg r = true /\
  (v * (1 - u53) <= F64.value r)%Q /\ (F64.value r <= v * (1 + u53))%Q.
Proof.
  intros v Hlo Hhi r.
  destruct (binary_round_unfold p e) as (mz & ez & U1 & U2 & U3 & U4).
  unfold r, v in *. rewrite U1. rewrite <- U4 in Hlo, Hhi |- *.
  apply round_aux_rel; try lia; try assumption.
  - cbn [inbetween]. reflexivity.
  - rewrite U3, U2. lia.
Qed.

Theorem binary_round_exact (p : positive) (e : Z) :
  fexp F64.prec F64.emax (Zdigits2 (Zpos p) + e) <= e -> e <= 970 ->
  let r := binary_round F64.prec F64.emax false p e in
  F64.finite r = true /\ F64.nonneg r = true /\
  (F64.value r == inject_Z (Zpos p) * pow2 e)%Q.
Proof.
  intros HF He r.
  destruct (binary_round_unfold p e) as (mz & ez & U1 & U2 & U3 & U4).
  assert (E' : Z.max ez (fexp F64.prec F64.emax (Zdigits2 (Zpos mz) + ez)) = ez)
    by (rewrite U3; lia).
  destruct (round_aux_value (Zpos mz) ez loc_Exact (inject_Z (Zpos mz))
              ltac:(lia) ltac:(cbn [inbetween]; reflexivity))
    as (A1 & A2 & _ & _ & A5 & _).
  { rewrite E'. lia. }
  unfold r. rewrite U1. split; [exact A1|]. split; [exact A2|].
  rewrite <- U4. apply A5; [reflexivity|exact E'].
Qed.

(** ** [float64(n)] *)

Theorem of_uint64_exact (n : Z) :
  0 <= n < 2 ^ 53 ->
  F64.finite (F64.of_uint64 n) = true /\
  F64.nonneg (F64.of_uint64 n) = true /\
  (F64.value (F64.of_uint64 n) == inject_Z n)%Q.
Proof.
  intros [H0 H1]. destruct n as [|p|p]; try lia.
  - repeat split.
  - unfold F64.of_uint64, binary_normalize.
    destruct (binary_round_exact p 0) as (A1 & A2 & A3); try lia.
    + rewrite fexp_eq.
      assert (Zdigits2 (Zpos p) - 1 < 53); [|lia].
      destruct (Zdigits2_bounds (Zpos p) ltac:(lia)) as [Hlo _].
      apply (Z.pow_lt_mono_r_iff 2); lia.
    + split; [exact A1|]. split; [exact A2|].
      rewrite A3. change (pow2 0) with 1%Q. ring.
Qed.

Theorem of_uint64_rel (n : Z) :
  0 < n < 2 ^ 64 ->
  F64.finite (F64.of_uint64 n) = true /\
  F64.nonneg (F64.of_uint64 n) = true /\
  (inject_Z n * (1 - u53) <= F64.value (F64.of_uint64 n))%Q /\
  (F64.value (F64.of_uint64 n) <= inject_Z n * (1 + u53))%Q.
Proof.
  intros [H0 H1]. destruct n as [|p|p]; try lia.
  unfold F64.of_uint64, binary_normalize.
  assert (E : (inject_Z (Zpos p) * pow2 0 == inject_Z (Zpos p))%Q)
    by (change (pow2 0) with 1%Q; ring).
  destruct (binary_round_rel p 0) as (A1 & A2 & A3 & A4).
  - rewrite E. apply Qle_trans with 1%Q; [discriminate|].
    change 1%Q with (inject_Z 1). apply inject_Z_le. lia.
  - rewrite E. apply Qlt_le_trans with (inject_Z (2 ^ 64)).
    + apply inject_Z_lt. exact H1.
    + discriminate.
  - rewrite E in A3, A4. auto.
Qed.

(** A finite, non-negative double of positive value is a positive
    mantissa and an exponent. *)
Lemma positive_form (r : F64.float64) :
  F64.finite r = true -> F64.nonneg r = true -> (0 < F64.value r)%Q ->
  exists m e, r = S754_finite false m e.
Proof.
  destruct r as [s|s| |s m e]; cbn; intros Hf Hn Hv; try discriminate; try lra.
  destruct s; [discriminate|]. exists m, e. reflexivity.
Qed.

Lemma value_finite_pos (m : positive) (e : Z) :
  (0 < F64.value (S754_finite false m e))%Q.
Proof.
  cbn [F64.value]. apply Qmult_lt_0_compat; [reflexivity|apply pow2_pos].
Qed.

Lemma zero_value (r : F64.float64) :
  F64.is_zero r = true -> (F64.value r == 0)%Q.
Proof. destruct r; cbn; intros H; try discriminate; reflexivity. Qed.

(** ** Division *)

Lemma new_location_spec (m2 q r : Z) :
  0 < m2 -> 0 <= r < m2 ->
  inbetween q (new_location m2 r) (inject_Z (m2 * q + r) / inject_Z m2).
Proof.
  intros Hm Hr.
  set (X := (inject_Z (m2 * q + r) / inject_Z m2)%Q).
  assert (HM : (0 < inject_Z m2)%Q) by (change 0%Q with (inject_Z 0); apply inject_Z_lt; lia).
  assert (HX : (X * inject_Z m2 == inject_Z m2 * inject_Z q + inject_Z r)%Q).
  { unfold X. rewrite inject_Z_plus, inject_Z_mult. field. lra. }
  assert (Hr0 : (0 <= inject_Z r)%Q) by (change 0%Q with (inject_Z 0); apply inject_Z_le; lia).
  assert (Hr1 : (inject_Z r < inject_Z m2)%Q) by (apply inject_Z_lt; lia).
  assert (Cmp : forall c, (2 * r ?= m2) = c -> r <> 0 ->
                          inbetween q (loc_Inexact c) X).
  { intros c Hc Hnz.
    assert (Hr2 : (0 < inject_Z r)%Q) by (change 0%Q with (inject_Z 0); apply inject_Z_lt; lia).
    cbn [inbetween]. split; [nra|]. split; [nra|].
    assert (E2 : (inject_Z (2 * r) == 2 * inject_Z r)%Q) by (rewrite inject_Z_mult; reflexivity).
    destruct c; q_compare.
    - apply Z.compare_eq_iff in Hc. rewrite <- Hc, E2 in HX, HM. nra.
    - rewrite Z.compare_lt_iff in Hc. apply inject_Z_lt in Hc. rewrite E2 in Hc. nra.
    - rewrite Z.compare_gt_iff in Hc. apply inject_Z_lt in Hc. rewrite E2 in Hc. nra. }
  unfold new_location, new_location_even, new_location_odd.
  destruct (Z.even m2) eqn:Ev.
  - destruct (Z.eqb_spec r 0) as [->|Hnz].
    + cbn [inbetween]. change (inject_Z 0) with 0%Q in HX. nra.
    + apply Cmp; [reflexivity|exact Hnz].
  - destruct (Z.eqb_spec r 0) as [->|Hnz].
    + cbn [inbetween]. change (inject_Z 0) with 0%Q in HX. nra.
    + assert (Hodd : Z.odd m2 = true) by (rewrite <- Z.negb_even, Ev; reflexivity).
      apply Z.odd_spec in Hodd. destruct Hodd as [j Hj].
      apply Cmp; [|exact Hnz].
      destruct (Z.compare_spec (2 * r + 1) m2) as [C|C|C].
      * apply Z.compare_lt_iff. lia.
      * apply Z.compare_lt_iff. lia.
      * apply Z.compare_gt_iff. lia.
Qed.

Lemma value_pos_eq (m : positive) (e : Z) :
  F64.value (S754_finite false m e) = (inject_Z (Zpos m) * pow2 e)%Q.
Proof. reflexivity. Qed.

Lemma value_bounds (m : positive) (e : Z) :
  (pow2 (Zdigits2 (Zpos m) - 1 + e) <= F64.value (S754_finite false m e))%Q /\
  (F64.value (S754_finite false m e) < pow2 (Zdigits2 (Zpos m) + e))%Q.
Proof.
  rewrite value_pos_eq, !pow2_add.
  pose proof (pow2_inject_lower (Zpos m) ltac:(lia)) as Hl.
  pose proof (pow2_inject_upper (Zpos m) ltac:(lia)) as Hu.
  pose proof (pow2_pos e) as Hw.
  split.
  - apply Qmult_le_compat_r; lra.
  - apply Qmult_lt_compat_r; lra.
Qed.

Lemma shift_case (m : positive) (s : Z) :
  0 <= s ->
  match s with
  | 0 => Zpos m
  | Zpos _ => Z.shiftl (Zpos m) s
  | Zneg _ => 0
  end = Zpos m * 2 ^ s.
Proof.
  intros Hs. destruct s as [|k|k]; try lia.
  apply Z.shiftl_mul_pow2. lia.
Qed.

Theorem div_rel (m1 m2 : positive) (e1 e2 : Z) :
  let v := (F64.value (S754_finite false m1 e1) /
            F64.value (S754_finite false m2 e2))%Q in
  (pow2 (-1022) <= v)%Q -> (v < pow2 1023)%Q ->
  let r := F64.div (S754_finite false m1 e1) (S754_finite false m2 e2) in
  F64.finite r = true /\ F64.nonneg r = true /\
  (v * (1 - u53) <= F64.value r)%Q /\ (F64.value r <= v * (1 + u53))%Q.
Proof.
  intros v Hlo Hhi r.
  unfold r, F64.div, SFdiv, SFdiv_core_binary. cbn [xorb].
  set (d1 := Zdigits2 (Zpos m1)). set (d2 := Zdigits2 (Zpos m2)).
  set (e' := Z.min (fexp F64.prec F64.emax (d1 + e1 - (d2 + e2))) (e1 - e2)).
  set (s := e1 - e2 - e').
  assert (Hs : 0 <= s) by (unfold s, e'; lia).
  set (m' := match s with
             | 0 => Zpos m1
             | Zpos _ => Z.shiftl (Zpos m1) s
             | Zneg _ => 0
             end).
  assert (Hm' : m' = Zpos m1 * 2 ^ s).
  { unfold m'. apply shift_case. exact Hs. }
  assert (Hp : 0 < 2 ^ s) by (apply Z.pow_pos_nonneg; lia).
  pose proof (Z_div_mod m' (Zpos m2) ltac:(lia)) as DM.
  destruct (Z.div_eucl m' (Zpos m2)) as [q rr]. destruct DM as [DM1 DM2].
  pose proof (new_location_spec (Zpos m2) q rr ltac:(lia) DM2) as IB.
  rewrite <- DM1 in IB.
  set (X := (inject_Z m' / inject_Z (Zpos m2))%Q) in *.
  assert (HM2 : (0 < inject_Z (Zpos m2))%Q) by reflexivity.
  assert (HXv : (X * pow2 e' == v)%Q).
  { unfold X, v. rewrite !value_pos_eq, Hm', inject_Z_mult, pow2_inject by lia.
    replace e1 with (s + e' + e2) by (unfold s; lia).
    rewrite !pow2_add.
    pose proof (pow2_pos e2). pose proof (pow2_pos e'). pose proof (pow2_pos s).
    field. split; lra. }
  pose proof (pow2_pos e') as Hw.
  assert (Hq52 : -1074 < e' -> 2 ^ 52 <= q).
  { intros He. unfold e' in He. rewrite fexp_eq in He.
    assert (S1 : d2 + 52 <= d1 - 1 + s) by (unfold s, e'; rewrite fexp_eq; lia).
    destruct (Zdigits2_bounds (Zpos m1) ltac:(lia)) as [L1 _].
    destruct (Zdigits2_bounds (Zpos m2) ltac:(lia)) as [_ U2].
    fold d1 in L1. fold d2 in U2.
    assert (0 < d1) by (unfold d1; simpl; lia).
    assert (0 < d2) by (unfold d2; simpl; lia).
    assert (B : 2 ^ 52 * Zpos m2 <= m').
    { rewrite Hm'. apply Z.le_trans with (2 ^ (d2 + 52)).
      - rewrite Z.pow_add_r by lia. nia.
      - apply Z.le_trans with (2 ^ (d1 - 1 + s)).
        + apply Z.pow_le_mono_r; lia.
        + rewrite Z.pow_add_r by lia. nia. }
    assert (Q1 : q = m' / Zpos m2) by (apply Z.div_unique_pos with rr; lia).
    rewrite Q1. apply Z.div_le_lower_bound; lia. }
  destruct (inbetween_bounds _ _ _ IB) as [Bl Bu].
  assert (Hq : 0 < q).
  { destruct (Z_lt_le_dec (-1074) e') as [He|He].
    - specialize (Hq52 He). lia.
    - assert (A : (pow2 (-1022) <= X * pow2 (-1074))%Q).
      { assert (Hq0 : 0 <= q) by nia.
        assert (HX0 : (0 <= X)%Q).
        { apply Qle_trans with (inject_Z q); [|exact Bl].
          change 0%Q with (inject_Z 0). apply inject_Z_le. exact Hq0. }
        pose proof (pow2_le e' (-1074) He) as Hle.
        rewrite <- HXv in Hlo. nra. }
      assert (A' : (1 <= X)%Q).
      { assert (E : (pow2 (-1022) == 4503599627370496 * pow2 (-1074))%Q) by reflexivity.
        pose proof (pow2_pos (-1074)). rewrite E in A. nra. }
      assert (0 < inject_Z q)%Q by lra.
      change 0%Q with (inject_Z 0) in H. rewrite <- Zlt_Qlt in H. exact H. }
  rewrite <- HXv in Hlo, Hhi |- *.
  apply round_aux_rel; try assumption.
  rewrite fexp_eq.
  destruct (Z_lt_le_dec (-1074) e') as [He|He]; [|lia].
  specialize (Hq52 He).
  destruct (Zdigits2_bounds q Hq) as [_ Uq].
  assert (52 < Zdigits2 q); [|lia].
  apply (Z.pow_lt_mono_r_iff 2); [lia|apply Zdigits2_nonneg|lia].
Qed.

(** ** Multiplication *)

Lemma mul_unfold (m1 m2 : positive) (e1 e2 : Z) :
  F64.mul (S754_finite false m1 e1) (S754_finite false m2 e2)
  = binary_round_aux F64.prec F64.emax false (Zpos (m1 * m2)) (e1 + e2) loc_Exact.
Proof. reflexivity. Qed.

Lemma mul_value (m1 m2 : positive) (e1 e2 : Z) :
  (inject_Z (Zpos (m1 * m2)) * pow2 (e1 + e2)
   == F64.value (S754_finite false m1 e1) * F64.value (S754_finite false m2 e2))%Q.
Proof.
  rewrite !value_pos_eq, Pos2Z.inj_mul, inject_Z_mult, pow2_add. ring.
Qed.

Lemma mul_digits (m1 m2 : positive) :
  53 <= Zdigits2 (Zpos m2) -> 53 <= Zdigits2 (Zpos (m1 * m2)).
Proof.
  intros H.
  destruct (Zdigits2_bounds (Zpos m2) ltac:(lia)) as [L2 _].
  destruct (Zdigits2_bounds (Zpos (m1 * m2)) ltac:(lia)) as [_ U].
  assert (A : 2 ^ 52 <= 2 ^ (Zdigits2 (Zpos m2) - 1)) by (apply Z.pow_le_mono_r; lia).
  assert (52 < Zdigits2 (Zpos (m1 * m2))); [|lia].
  apply (Z.pow_lt_mono_r_iff 2); [lia|apply Zdigits2_nonneg|].
  assert (Zpos m2 <= Zpos (m1 * m2)) by (rewrite Pos2Z.inj_mul; nia). lia.
Qed.

Theorem mul_rel_gen (m1 m2 : positive) (e1 e2 : Z) :
  53 <= Zdigits2 (Zpos m2) ->
  let v := (F64.value (S754_finite false m1 e1) *
            F64.value (S754_finite false m2 e2))%Q in
  (pow2 (-1022) <= v)%Q ->
  let r := F64.mul (S754_finite false m1 e1) (S754_finite false m2 e2) in
  F64.nonneg r = true /\
  ((v < pow2 1023)%Q -> F64.finite r = true) /\
  (F64.finite r = true ->
   (v * (1 - u53) <= F64.value r)%Q /\ (F64.value r <= v * (1 + u53))%Q).
Proof.
  intros Hd v Hlo r. unfold r, v in *. rewrite mul_unfold.
  rewrite <- mul_value in Hlo |- *.
  apply round_aux_rel_gen; try assumption; try lia.
  - cbn [inbetween]. reflexivity.
  - rewrite fexp_eq. pose proof (mul_digits m1 m2 Hd). lia.
Qed.

(** A product below one half rounds to a double below one. *)
Theorem mul_small (m1 m2 : positive) (e1 e2 : Z) :
  53 <= Zdigits2 (Zpos m2) ->
  let v := (F64.value (S754_finite false m1 e1) *
            F64.value (S754_finite false m2 e2))%Q in
  (v < 1 # 2)%Q ->
  let r := F64.mul (S754_finite false m1 e1) (S754_finite false m2 e2) in
  F64.finite r = true /\ F64.nonneg r = true /\ (F64.value r < 1)%Q.
Proof.
  intros Hd v Hv r. unfold r, v in *. rewrite mul_unfold.
  rewrite <- mul_value in Hv.
  pose proof (mul_digits m1 m2 Hd) as Hd'.
  assert (Du : Zdigits2 (Zpos (m1 * m2)) + (e1 + e2) <= -1).
  { apply (digits_upper _ _ _ (inject_Z (Zpos (m1 * m2)))); [lia|lra|].
    exact Hv. }
  set (e' := Z.max (e1 + e2)
               (fexp F64.prec F64.emax (Zdigits2 (Zpos (m1 * m2)) + (e1 + e2)))).
  assert (He : e' <= -54) by (unfold e'; rewrite fexp_eq; lia).
  destruct (round_aux_value (Zpos (m1 * m2)) (e1 + e2) loc_Exact
              (inject_Z (Zpos (m1 * m2))) ltac:(lia)
              ltac:(cbn [inbetween]; reflexivity)) as (A1 & A2 & _ & A4 & _).
  { fold e'. lia. }
  fold e' in A4. split; [exact A1|]. split; [exact A2|].
  pose proof (pow2_le e' (-54) He) as Hle.
  assert (E : (pow2 (-54) == 1 # 18014398509481984)%Q) by reflexivity.
  rewrite E in Hle. lra.
Qed.

(** ** Addition *)

Theorem add_rel (m1 m2 : positive) (e1 e2 : Z) :
  let v := (F64.value (S754_finite false m1 e1) +
            F64.value (S754_finite false m2 e2))%Q in
  (pow2 (-1022) <= v)%Q -> (v < pow2 1023)%Q ->
  let r := F64.add (S754_finite false m1 e1) (S754_finite false m2 e2) in
  F64.finite r = true /\ F64.nonneg r = true /\
  (v * (1 - u53) <= F64.value r)%Q /\ (F64.value r <= v * (1 + u53))%Q.
Proof.
  intros v Hlo Hhi r.
  unfold r, F64.add, SFadd. cbn [cond_Zopp].
  set (ez := Z.min e1 e2).
  destruct (shl_align_spec m1 e1 ez) as [_ S1].
  destruct (shl_align_spec m2 e2 ez) as [_ S2].
  replace (Z.min e1 ez) with ez in S1 by (unfold ez; lia).
  replace (Z.min e2 ez) with ez in S2 by (unfold ez; lia).
  set (a1 := fst (shl_align m1 e1 ez)) in *.
  set (a2 := fst (shl_align m2 e2 ez)) in *.
  change (Zpos a1 + Zpos a2) with (Zpos (a1 + a2)).
  cbn [binary_normalize].
  assert (E : (inject_Z (Zpos (a1 + a2)) * pow2 ez == v)%Q).
  { unfold v. rewrite !value_pos_eq, Pos2Z.inj_add, inject_Z_plus, S1, S2.
    rewrite !inject_Z_mult, !pow2_inject by (unfold ez; lia).
    assert (P1 : (pow2 e1 == pow2 (e1 - ez) * pow2 ez)%Q)
      by (rewrite <- pow2_add; replace (e1 - ez + ez) with e1 by lia; reflexivity).
    assert (P2 : (pow2 e2 == pow2 (e2 - ez) * pow2 ez)%Q)
      by (rewrite <- pow2_add; replace (e2 - ez + ez) with e2 by lia; reflexivity).
    rewrite P1, P2. ring. }
  rewrite <- E in Hlo, Hhi |- *.
  apply binary_round_rel; assumption.
Qed.

(** ** Conversion to [uint64] *)

Theorem to_uint64_floor (r : F64.float64) :
  F64.finite r = true -> F64.nonneg r = true ->
  (F64.value r < inject_Z (2 ^ 64))%Q ->
  F64.to_uint64 r = Some (Qfloor (F64.value r)).
Proof.
  destruct r as [s|s| |s m e]; cbn [F64.finite F64.nonneg]; intros Hf Hn Hv;
    try discriminate.
  - reflexivity.
  - destruct s; [discriminate|]. cbn [F64.to_uint64].
    assert (T : F64.trunc_mag m e = Qfloor (F64.value (S754_finite false m e))).
    { rewrite value_pos_eq. unfold F64.trunc_mag. destruct e as [|k|k].
      - change (pow2 0) with 1%Q. rewrite Qmult_1_r, Qfloor_Z. reflexivity.
      - rewrite Z.shiftl_mul_pow2 by lia.
        rewrite <- pow2_inject, <- inject_Z_mult, Qfloor_Z by lia. reflexivity.
      - rewrite Z.shiftr_div_pow2 by lia. rewrite Zdiv_Qdiv.
        apply Qfloor_comp. unfold Qdiv.
        rewrite pow2_inject by lia.
        change (Zneg k) with (- Zpos k). unfold pow2. rewrite Qpower_opp.
        reflexivity. }
    rewrite T.
    destruct (Z.ltb_spec (Qfloor (F64.value (S754_finite false m e))) (2 ^ 64))
      as [_|Hge]; [reflexivity|].
    exfalso. apply inject_Z_le in Hge.
    pose proof (Qfloor_le (F64.value (S754_finite false m e))). lra.
Qed.

Theorem to_uint64_inv (r : F64.float64) (l : Z) :
  F64.nonneg r = true -> F64.to_uint64 r = Some l ->
  F64.finite r = true /\ l = Qfloor (F64.value r) /\ 0 <= l < 2 ^ 64.
Proof.
  intros Hn Hl.
  assert (Hf : F64.finite r = true).
  { destruct r as [s|s| |s m e]; cbn in Hl |- *; try discriminate; reflexivity. }
  assert (Hv : (0 <= F64.value r)%Q).
  { destruct r as [s|s| |s m e]; cbn [F64.value]; try lra.
    destruct s; [discriminate|]. apply Qlt_le_weak, value_finite_pos. }
  split; [exact Hf|].
  assert (T : l = Qfloor (F64.value r) /\ l < 2 ^ 64).
  { destruct r as [s|s| |s m e]; try discriminate.
    - cbn in Hl |- *. injection Hl as <-. split; [reflexivity|lia].
    - destruct s; [discriminate|]. cbn [F64.to_uint64] in Hl.
      destruct (Z.ltb_spec (F64.trunc_mag m e) (2 ^ 64)) as [Hlt|Hge];
        [|discriminate].
      injection Hl as <-. split; [|exact Hlt].
      rewrite value_pos_eq. unfold F64.trunc_mag. destruct e as [|k|k].
      + change (pow2 0) with 1%Q. rewrite Qmult_1_r, Qfloor_Z. reflexivity.
      + rewrite Z.shiftl_mul_pow2 by lia.
        rewrite <- pow2_inject, <- inject_Z_mult, Qfloor_Z by lia. reflexivity.
      + rewrite Z.shiftr_div_pow2 by lia. rewrite Zdiv_Qdiv.
        apply Qfloor_comp. unfold Qdiv.
        rewrite pow2_inject by lia.
        change (Zneg k) with (- Zpos k). unfold pow2. rewrite Qpower_opp.
        reflexivity. }
  destruct T as [T1 T2]. split; [exact T1|]. split; [|exact T2].
  rewrite T1. change 0 with (Qfloor 0). apply Qfloor_resp_le. exact Hv.
Qed.

Lemma mul_nonneg (f : F64.float64) (mk : positive) (ek : Z) :
  F64.nonneg f = true ->
  F64.nonneg (F64.mul f (S754_finite false mk ek)) = true.
Proof.
  destruct f as [s|s| |s m e]; cbn [F64.nonneg]; intros H; try discriminate.
  - reflexivity.
  - destruct s; [discriminate|]. reflexivity.
  - destruct s; [discriminate|]. rewrite mul_unfold.
    apply (round_aux_value_gen (Zpos (m * mk)) (e + ek) loc_Exact
             (inject_Z (Zpos (m * mk)))); [lia|].
    cbn [inbetween]. reflexivity.
Qed.

Lemma u53_eq : (u53 == 1 # 9007199254740992)%Q.
Proof. reflexivity. Qed.

(** ** The accessor computation *)

Theorem two_step_bounds (K l : Z) :
  0 < K < 2 ^ 53 -> 0 <= l < 2 ^ 64 ->
  let r := two_step K l in
  let L := (inject_Z l / inject_Z K)%Q in
  F64.finite r = true /\ F64.nonneg r = true /\
  (L * (1 - u53) * (1 - u53) <= F64.value r)%Q /\
  (F64.value r <= L * (1 + u53) * (1 + u53))%Q.
Proof.
  intros HK Hl r L. unfold r, two_step.
  pose proof (Z.div_mod l K ltac:(lia)) as DM.
  pose proof (Z.mod_pos_bound l K ltac:(lia)) as Hrm.
  assert (Hq : 0 <= l / K < 2 ^ 64).
  { split; [apply Z.div_pos; lia|]. apply Z.div_lt_upper_bound; nia. }
  set (q := l / K) in *. set (rm := l mod K) in *.
  assert (HKq : (0 < inject_Z K)%Q) by (change 0%Q with (inject_Z 0); apply inject_Z_lt; lia).
  assert (HKu : (inject_Z K < inject_Z (2 ^ 53))%Q) by (apply inject_Z_lt; lia).
  set (t := (inject_Z rm / inject_Z K)%Q).
  assert (HL : (L == inject_Z q + t)%Q).
  { unfold L, t. rewrite DM, inject_Z_plus, inject_Z_mult. field. lra. }
  assert (Ht : (t * inject_Z K == inject_Z rm)%Q) by (unfold t; field; lra).
  assert (Hq0 : (0 <= inject_Z q)%Q) by (change 0%Q with (inject_Z 0); apply inject_Z_le; lia).
  assert (Hq1 : (inject_Z q < inject_Z (2 ^ 64))%Q) by (apply inject_Z_lt; lia).
  assert (Hr0 : (0 <= inject_Z rm)%Q) by (change 0%Q with (inject_Z 0); apply inject_Z_le; lia).
  assert (Hr1 : (inject_Z rm < inject_Z K)%Q) by (apply inject_Z_lt; lia).
  assert (Ht0 : (0 <= t)%Q) by nra.
  assert (Ht1 : (t < 1)%Q) by nra.
  change (inject_Z (2 ^ 53)) with (9007199254740992%Q) in HKu.
  change (inject_Z (2 ^ 64)) with (18446744073709551616%Q) in Hq1.
  pose proof u53_eq as U.
  (* the divisor *)
  destruct (of_uint64_exact K ltac:(lia)) as (K1 & K2 & K3).
  destruct (positive_form _ K1 K2 ltac:(rewrite K3; exact HKq)) as (mk & ek & EK).
  rewrite EK in K3 |- *.
  (* the whole units *)
  assert (HQ : q = 0 /\ F64.of_uint64 q = S754_zero false \/
               0 < q /\ exists mq eq, F64.of_uint64 q = S754_finite false mq eq /\
                 (inject_Z q * (1 - u53) <= F64.value (S754_finite false mq eq))%Q /\
                 (F64.value (S754_finite false mq eq) <= inject_Z q * (1 + u53))%Q).
  { destruct (Z.eq_dec q 0) as [->|Hnz]; [left; split; reflexivity|right].
    split; [lia|].
    destruct (of_uint64_rel q ltac:(lia)) as (Q1 & Q2 & Q3 & Q4).
    assert (Hq2 : (1 <= inject_Z q)%Q)
      by (change 1%Q with (inject_Z 1); apply inject_Z_le; lia).
    destruct (positive_form _ Q1 Q2 ltac:(rewrite U in Q3; lra)) as (mq & eq & EQ).
    exists mq, eq. rewrite EQ in Q3, Q4. auto. }
  (* the remainder over the divisor *)
  assert (HY : rm = 0 /\
               F64.div (F64.of_uint64 rm) (S754_finite false mk ek) = S754_zero false \/
               0 < rm /\ exists my ey,
                 F64.div (F64.of_uint64 rm) (S754_finite false mk ek)
                 = S754_finite false my ey /\
                 (t * (1 - u53) <= F64.value (S754_finite false my ey))%Q /\
                 (F64.value (S754_finite false my ey) <= t * (1 + u53))%Q).
  { destruct (Z.eq_dec rm 0) as [Hz|Hnz]; [left; rewrite Hz; split; reflexivity|right].
    split; [lia|].
    destruct (of_uint64_exact rm ltac:(lia)) as (R1 & R2 & R3).
    assert (Hr2 : (1 <= inject_Z rm)%Q)
      by (change 1%Q with (inject_Z 1); apply inject_Z_le; lia).
    destruct (positive_form _ R1 R2 ltac:(rewrite R3; lra)) as (mr & er & ER).
    rewrite ER in R3 |- *.
    assert (V : (F64.value (S754_finite false mr er) /
                 F64.value (S754_finite false mk ek) == t)%Q)
      by (rewrite R3, K3; reflexivity).
    assert (Ht2 : (1 # 9007199254740992 <= t)%Q) by nra.
    destruct (div_rel mr mk er ek) as (Y1 & Y2 & Y3 & Y4).
    - rewrite V. apply Qle_trans with (1 # 9007199254740992)%Q; [discriminate|exact Ht2].
    - rewrite V. apply Qlt_le_trans with 1%Q; [exact Ht1|discriminate].
    - rewrite V in Y3, Y4.
      destruct (positive_form _ Y1 Y2 ltac:(rewrite U in Y3; lra)) as (my & ey & EY).
      exists my, ey. rewrite EY in Y3, Y4. auto. }
  destruct HQ as [[Hq2 EQ]|[Hq2 (mq & eq & EQ & Q3 & Q4)]];
    destruct HY as [[Hr2 EY]|[Hr2 (my & ey & EY & Y3 & Y4)]];
    rewrite EQ, EY.
  - split; [reflexivity|]. split; [reflexivity|].
    assert (L == 0)%Q.
    { rewrite HL. rewrite Hr2 in Ht. rewrite Hq2. change (inject_Z 0) with 0%Q in *. nra. }
    cbn [F64.add SFadd F64.value]. rewrite H, U. split; lra.
  - change (F64.add (S754_zero false) (S754_finite false my ey))
      with (S754_finite false my ey).
    split; [reflexivity|]. split; [reflexivity|].
    rewrite HL, Hq2. change (inject_Z 0) with 0%Q. rewrite U in *. split; lra.
  - change (F64.add (S754_finite false mq eq) (S754_zero false))
      with (S754_finite false mq eq).
    split; [reflexivity|]. split; [reflexivity|].
    assert (t == 0)%Q by (rewrite Hr2 in Ht; change (inject_Z 0) with 0%Q in Ht; nra).
    rewrite HL, H. rewrite U in *. split; lra.
  - assert (Hq3 : (1 <= inject_Z q)%Q)
      by (change 1%Q with (inject_Z 1); apply inject_Z_le; lia).
    destruct (add_rel mq my eq ey) as (A1 & A2 & A3 & A4).
    + apply Qle_trans with (1 # 2)%Q; [discriminate|]. rewrite U in *. lra.
    + apply Qlt_le_trans with (36893488147419103232%Q); [|discriminate].
      rewrite U in *. lra.
    + split; [exact A1|]. split; [exact A2|].
      rewrite HL. rewrite U in *. split; lra.
Qed.

(** ** The accessors and the converting functions *)

Lemma Qfloor_unique (x : Q) (n : Z) :
  (inject_Z n <= x)%Q -> (x < inject_Z n + 1)%Q -> Qfloor x = n.
Proof.
  intros H1 H2.
  pose proof (Qfloor_le x) as F1. pose proof (Qlt_floor x) as F2.
  rewrite inject_Z_plus in F2. change (inject_Z 1) with 1%Q in F2.
  assert (A : (inject_Z n < inject_Z (Qfloor x) + 1)%Q) by lra.
  assert (B : (inject_Z (Qfloor x) < inject_Z n + 1)%Q) by lra.
  change 1%Q with (inject_Z 1) in A, B. rewrite <- inject_Z_plus in A, B.
  rewrite <- Zlt_Qlt in A, B. lia.
Qed.

Lemma unit_constant_bounds (u : Lengths.AUnit) :
  0 < Lengths.nanometersPerAUnit u < 2 ^ 53.
Proof. destruct u; vm_compute; split; reflexivity. Qed.

Lemma two_step_zero (u : Lengths.AUnit) :
  two_step (Lengths.nanometersPerAUnit u) 0 = S754_zero false.
Proof. destruct u; reflexivity. Qed.

Lemma quotient_pos (l K : Z) :
  0 < K -> 0 < l -> (0 < inject_Z l / inject_Z K)%Q.
Proof.
  intros HK Hl.
  assert (A : (0 < inject_Z K)%Q) by (change 0%Q with (inject_Z 0); apply inject_Z_lt; lia).
  assert (B : (0 < inject_Z l)%Q) by (change 0%Q with (inject_Z 0); apply inject_Z_lt; lia).
  apply Qlt_shift_div_l; lra.
Qed.

Lemma ToUnit_nonnegative_zero_iff (u : Lengths.AUnit) (l : Length) :
  is_uint64 l -> nonnegative_zero_iff (Lengths.ToUnit u l) l.
Proof.
  intros Hl. unfold is_uint64 in Hl. rewrite divisor_constant.
  pose proof (unit_constant_bounds u) as HK.
  destruct (two_step_bounds _ l HK Hl) as (F & N & Lo & Hi).
  pose proof u53_eq as U. rewrite U in Lo, Hi.
  set (L := (inject_Z l / inject_Z (Lengths.nanometersPerAUnit u))%Q) in *.
  assert (HL : l = 0 \/ (0 < l /\ (0 < L)%Q)).
  { destruct (Z.eq_dec l 0) as [->|Hnz]; [left; reflexivity|right].
    split; [lia|]. apply quotient_pos; lia. }
  assert (HL0 : (0 <= L)%Q).
  { destruct HL as [->|[_ HL]]; [|lra]. unfold L. change (inject_Z 0) with 0%Q.
    unfold Qdiv. rewrite Qmult_0_l. lra. }
  assert (V0 : ((F64.value (two_step (Lengths.nanometersPerAUnit u) l) == 0)%Q <-> l = 0)).
  { split.
    - intros E. destruct HL as [H|[_ HL]]; [exact H|]. rewrite E in Lo. lra.
    - intros ->. rewrite two_step_zero. reflexivity. }
  split; [exact F|]. split; [exact N|]. split; [lra|]. split; [exact V0|].
  split.
  - intros Z. apply V0. apply zero_value. exact Z.
  - intros ->. rewrite two_step_zero. reflexivity.
Qed.

Lemma FeetAndInches_spec (l : Length) :
  is_uint64 l ->
  let feet := fst (Lengths.FeetAndInches l) in
  let inches := snd (Lengths.FeetAndInches l) in
  F64.finite feet = true /\
  (F64.value feet == inject_Z (l / Lengths.Foot))%Q /\
  F64.finite inches = true /\
  (0 <= F64.value inches)%Q /\ (F64.value inches < 12)%Q /\
  Qround_nearest (F64.value inches * inject_Z Lengths.Inch) = l mod Lengths.Foot /\
  (Qabs (F64.value feet * inject_Z Lengths.Foot
         + inject_Z (Qround_nearest (F64.value inches * inject_Z Lengths.Inch))
         - inject_Z l) <= 1)%Q.
Proof.
  intros Hl. unfold is_uint64 in Hl.
  cbv beta zeta delta [Lengths.FeetAndInches fst snd] iota.
  change Lengths.Foot with 304800000. change Lengths.Inch with 25400000.
  pose proof (Z.div_mod l 304800000 ltac:(lia)) as DM.
  pose proof (Z.mod_pos_bound l 304800000 ltac:(lia)) as Hr.
  assert (Hq : 0 <= l / 304800000 < 2 ^ 53).
  { split; [apply Z.div_pos; lia|]. apply Z.div_lt_upper_bound; lia. }
  set (q := l / 304800000) in *. set (rI := l mod 304800000) in *.
  destruct (of_uint64_exact q Hq) as (Q1 & _ & Q3).
  change (Lengths.Length_Inches rI) with (two_step 25400000 rI).
  destruct (two_step_bounds 25400000 rI ltac:(lia) ltac:(lia)) as (F & N & Lo & Hi).
  pose proof u53_eq as U. rewrite U in Lo, Hi.
  set (L := (inject_Z rI / inject_Z 25400000)%Q) in *.
  assert (HL : (L * 25400000 == inject_Z rI)%Q).
  { unfold L. change (inject_Z 25400000) with 25400000%Q. field. }
  assert (R0 : (0 <= inject_Z rI)%Q)
    by (change 0%Q with (inject_Z 0); apply inject_Z_le; lia).
  assert (R1 : (inject_Z rI <= 304799999)%Q)
    by (change 304799999%Q with (inject_Z 304799999); apply inject_Z_le; lia).
  set (v := F64.value (two_step 25400000 rI)) in *.
  change (inject_Z 25400000) with 25400000%Q.
  change (inject_Z 304800000) with 304800000%Q.
  assert (Rd : Qround_nearest (v * 25400000) = rI).
  { unfold Qround_nearest. apply Qfloor_unique; lra. }
  split; [exact Q1|]. split; [exact Q3|]. split; [exact F|].
  split; [lra|]. split; [lra|]. split; [exact Rd|].
  rewrite Rd, Q3.
  assert (E : (inject_Z q * 304800000 + inject_Z rI - inject_Z l == 0)%Q).
  { rewrite DM at 1. rewrite inject_Z_plus, inject_Z_mult.
    change (inject_Z 304800000) with 304800000%Q. ring. }
  rewrite E. discriminate.
Qed.

Lemma nonneg_value (r : F64.float64) :
  F64.nonneg r = true -> (0 <= F64.value r)%Q.
Proof.
  destruct r as [s|s| |s m e]; cbn [F64.nonneg F64.value]; intros H; try lra.
  destruct s; [discriminate|]. apply Qlt_le_weak, value_finite_pos.
Qed.

Lemma pow2_m51_eq : (pow2 (-51) == 1 # 2251799813685248)%Q.
Proof. reflexivity. Qed.

Lemma round_trip_generic (K : Z) (f : F64.float64) (l : Z) :
  0 < K < 2 ^ 53 ->
  (exists mk ek, F64.of_uint64 K = S754_finite false mk ek /\
                 53 <= Zdigits2 (Zpos mk)) ->
  F64.nonneg f = true ->
  F64.to_uint64 (F64.mul f (F64.of_uint64 K)) = Some l ->
  (Qabs (F64.value (two_step K l) - F64.value f)
   < 1 / inject_Z K + F64.value f * pow2 (-51))%Q.
Proof.
  intros HK (mk & ek & EK & Dk) Hn Hl.
  destruct (of_uint64_exact K ltac:(lia)) as (_ & _ & K3).
  rewrite EK in K3, Hl.
  pose proof (mul_nonneg f mk ek Hn) as Np.
  destruct (to_uint64_inv _ _ Np Hl) as (Fp & Lf & Lr).
  pose proof (nonneg_value _ Np) as Pv0.
  pose proof (Qfloor_le (F64.value (F64.mul f (S754_finite false mk ek)))) as Fl1.
  pose proof (Qlt_floor (F64.value (F64.mul f (S754_finite false mk ek)))) as Fl2.
  rewrite <- Lf in Fl1, Fl2. rewrite inject_Z_plus in Fl2.
  change (inject_Z 1) with 1%Q in Fl2.
  destruct (two_step_bounds K l HK Lr) as (_ & _ & Lo & Hi).
  pose proof u53_eq as U. rewrite U in Lo, Hi. rewrite pow2_m51_eq.
  set (kq := inject_Z K) in *.
  assert (Hk : (0 < kq)%Q) by (change 0%Q with (inject_Z 0); apply inject_Z_lt; lia).
  set (ik := (1 / kq)%Q).
  assert (Hik : (ik * kq == 1)%Q) by (unfold ik; field; lra).
  assert (Hik0 : (0 < ik)%Q) by nra.
  set (L := (inject_Z l / kq)%Q) in *.
  assert (HL : (L * kq == inject_Z l)%Q) by (unfold L; field; lra).
  set (rv := F64.value (two_step K l)) in *.
  set (pv := F64.value (F64.mul f (S754_finite false mk ek))) in *.
  apply Qabs_Qlt_condition.
  destruct f as [s|s| |s m e]; try discriminate.
  - (* zero *)
    assert (E : (pv == 0)%Q) by (unfold pv; destruct s; reflexivity).
    assert (Z0 : (L == 0)%Q) by nra.
    cbn [F64.value]. rewrite Z0 in Lo, Hi. split; lra.
  - (* finite *)
    destruct s; [discriminate Hn|].
    set (fv := F64.value (S754_finite false m e)) in *.
    assert (Hf0 : (0 < fv)%Q) by apply value_finite_pos.
    destruct (Qlt_le_dec (fv * kq) (1 # 2)) as [Small|Big].
    + destruct (mul_small m mk e ek Dk) as (_ & _ & S3).
      { fold fv. rewrite K3. exact Small. }
      fold pv in S3.
      assert (Z0 : (L == 0)%Q).
      { assert (inject_Z l < 1)%Q by lra.
        change 1%Q with (inject_Z 1) in H. rewrite <- Zlt_Qlt in H.
        assert (E0 : l = 0) by lia. rewrite E0 in HL.
        change (inject_Z 0) with 0%Q in HL. nra. }
      rewrite Z0 in Lo, Hi.
      assert (fv < ik)%Q by nra.
      split; lra.
    + destruct (mul_rel_gen m mk e ek Dk) as (_ & _ & B).
      { fold fv. rewrite K3. fold kq.
        apply Qle_trans with (1 # 2)%Q; [discriminate|exact Big]. }
      destruct (B Fp) as (B1 & B2). fold fv pv in B1, B2.
      rewrite K3, U in B1, B2. fold kq in B1, B2.
      assert (C1 : (L <= fv * (1 + (1 # 9007199254740992)))%Q).
      { apply (Qmult_le_r _ _ kq Hk). lra. }
      assert (C2 : (fv * (1 - (1 # 9007199254740992)) - ik < L)%Q).
      { apply (Qmult_lt_r _ _ kq Hk). nra. }
      split; lra.
Qed.

Lemma FromUnit_product (u : Lengths.CUnit) (f : F64.float64) :
  Lengths.FromUnit u f = F64.to_uint64 (product (Lengths.nanometersPerUnit u) f).
Proof. destruct u; reflexivity. Qed.

Lemma unit_float (u : Lengths.CUnit) :
  exists mk ek,
    F64.of_uint64 (Lengths.nanometersPerUnit u) = S754_finite false mk ek /\
    53 <= Zdigits2 (Zpos mk).
Proof.
  destruct u; eexists; eexists;
    (split; [vm_compute; reflexivity|apply Z.leb_le; reflexivity]).
Qed.

Lemma constructor_unit_bounds (u : Lengths.CUnit) :
  0 < Lengths.nanometersPerUnit u < 2 ^ 53.
Proof. destruct u; vm_compute; split; reflexivity. Qed.

Lemma accessor_of_constant (c : Lengths.CUnit) (a : Lengths.AUnit) :
  Lengths.accessor_of c = Some a ->
  Lengths.nanometersPerAUnit a = Lengths.nanometersPerUnit c.
Proof. destruct c; intros H; inversion H; reflexivity. Qed.

Lemma Legacy_accessor_of (c : Legacy.CUnit) (a : Legacy.AUnit) :
  Legacy.accessor_of c = Some a ->
  Lengths.accessor_of (Legacy.c_unit c) = Some (Legacy.a_unit a).
Proof. destruct c; intros H; inversion H; reflexivity. Qed.

Lemma FromUnit_truncates (u : Lengths.CUnit) (f : F64.float64) :
  F64.nonneg f = true ->
  let p := product (Lengths.nanometersPerUnit u) f in
  representable p ->
  Lengths.FromUnit u f = Some (Qfloor (F64.value p)) /\
  (inject_Z (Qfloor (F64.value p)) <= F64.value p)%Q /\
  (F64.value p < inject_Z (Qfloor (F64.value p)) + 1)%Q.
Proof.
  intros Hn p [Hf Hv]. rewrite FromUnit_product. fold p.
  split; [|split].
  - apply to_uint64_floor; try assumption.
    unfold p, product. destruct (unit_float u) as (mk & ek & E & _).
    rewrite E. apply mul_nonneg. exact Hn.
  - apply Qfloor_le.
  - pose proof (Qlt_floor (F64.value p)) as H.
    rewrite inject_Z_plus in H. exact H.
Qed.

Lemma round_trip_bound (c : Lengths.CUnit) (a : Lengths.AUnit)
      (f : F64.float64) (l : Length) :
  F64.nonneg f = true ->
  Lengths.accessor_of c = Some a ->
  Lengths.FromUnit c f = Some l ->
  (Qabs (F64.value (Lengths.ToUnit a l) - F64.value f)
   < 1 / inject_Z (Lengths.nanometersPerUnit c) + F64.value f * pow2 (-51))%Q.
Proof.
  intros Hn Ha Hl. rewrite divisor_constant, (accessor_of_constant c a Ha).
  rewrite FromUnit_product in Hl.
  apply round_trip_generic; try assumption.
  - apply constructor_unit_bounds.
  - apply unit_float.
Qed.

(** * The claims of the specification *)

(** C1 (amended).  For a non-negative double [f] and a unit [U] whose
    double product [f * float64(Ku)] is finite and below [2^64], the
    converting function [U(f)] returns the floor of that product: the
    fraction is discarded, so the result is never above the product and
    less than one nanometer below it.  Both source variants. *)
Theorem C1_FromUnit_truncates (f : F64.float64) :
  F64.nonneg f = true ->
  (forall u : Lengths.CUnit,
     let p := product (Lengths.nanometersPerUnit u) f in
     representable p ->
     Lengths.FromUnit u f = Some (Qfloor (F64.value p)) /\
     (inject_Z (Qfloor (F64.value p)) <= F64.value p)%Q /\
     (F64.value p < inject_Z (Qfloor (F64.value p)) + 1)%Q) /\
  (forall u : Legacy.CUnit,
     let p := product (Legacy.nanometersPerUnit u) f in
     representable p ->
     Legacy.FromUnit u f = Some (Qfloor (F64.value p)) /\
     (inject_Z (Qfloor (F64.value p)) <= F64.value p)%Q /\
     (F64.value p < inject_Z (Qfloor (F64.value p)) + 1)%Q).
Proof.
  intros Hn. split; intros u.
  - apply FromUnit_truncates. exact Hn.
  - rewrite Legacy_FromUnit, Legacy_nanometersPerUnit.
    apply FromUnit_truncates. exact Hn.
Qed.

(** [Inches(1e-7)]: the product is about 2.54 nanometers, the result is 2
    (rounding to nearest would give 3). *)
Lemma C1_witness :
  F64.nonneg (F64.of_decimal 1 (-7)) = true /\
  representable (product Lengths.Inch (F64.of_decimal 1 (-7))) /\
  Lengths.FromUnit Lengths.CInches (F64.of_decimal 1 (-7))
  = Some (Qfloor (F64.value (product Lengths.Inch (F64.of_decimal 1 (-7))))).
Proof.
  assert (Hn : F64.nonneg (F64.of_decimal 1 (-7)) = true)
    by (vm_compute; reflexivity).
  assert (Hr : representable (product Lengths.Inch (F64.of_decimal 1 (-7))))
    by (split; vm_compute; reflexivity).
  split; [exact Hn|]. split; [exact Hr|].
  apply (proj1 (C1_FromUnit_truncates (F64.of_decimal 1 (-7)) Hn) Lengths.CInches).
  exact Hr.
Defined.

Example Inches_1e_7 :
  Lengths.Inches (F64.of_decimal 1 (-7)) = Some 2 /\
  Qround_nearest (F64.value (product Lengths.Inch (F64.of_decimal 1 (-7)))) = 3.
Proof. split; vm_compute; reflexivity. Qed.

(** C1 as stated fails where the product does not fit a [uint64]:
    [Meters(1e30)] has a product of about [10^39] nanometers, which no
    [Length] equals; Go leaves the conversion to the implementation. *)
Lemma C1_counterexample :
  F64.valid (F64.of_decimal 1 30) = true /\
  F64.nonneg (F64.of_decimal 1 30) = true /\
  Lengths.Meters (F64.of_decimal 1 30) = None /\
  Lengths.Meters (F64.of_decimal 1 30)
  <> Some (Qfloor (F64.value (product Lengths.Meter (F64.of_decimal 1 30)))) /\
  ~ is_uint64 (Qfloor (F64.value (product Lengths.Meter (F64.of_decimal 1 30)))).
Proof.
  split; [vm_compute; reflexivity|]. split; [vm_compute; reflexivity|].
  split; [vm_compute; reflexivity|].
  split; [intros H; vm_compute in H; discriminate H|].
  unfold is_uint64. intros [_ H]. vm_compute in H. discriminate H.
Qed.

(** C2.  Every accessor computes
    [float(l / Ku) + float(l mod Ku) / float(Ku)], in both variants; this
    is not the single division [float(l) / float(Ku)], from which it
    differs for some length in every unit. *)
Theorem C2_accessor_is_two_step :
  (forall (u : Lengths.AUnit) (l : Length),
      Lengths.ToUnit u l = two_step (Lengths.nanometersPerAUnit u) l) /\
  (forall (u : Legacy.AUnit) (l : Length),
      Legacy.ToUnit u l = two_step (Legacy.nanometersPerAUnit u) l) /\
  (forall u : Lengths.AUnit, exists l : Length,
      is_uint64 l /\
      Lengths.ToUnit u l <> single_division (Lengths.nanometersPerAUnit u) l).
Proof.
  split; [|split].
  - intros u l. rewrite divisor_constant. reflexivity.
  - intros u l. rewrite Legacy_ToUnit, Legacy_nanometersPerAUnit, divisor_constant.
    reflexivity.
  - intros u.
    destruct u;
      [exists (2 ^ 53 + 3)|exists (2 ^ 53 + 1)|exists (2 ^ 53 + 1)
      |exists (2 ^ 53 + 3)|exists (2 ^ 53 + 1)|exists (2 ^ 53 + 1)];
      (split; [unfold is_uint64; lia|vm_compute; discriminate]).
Qed.

(** C3.  For every length and every unit the accessor returns a finite,
    non-negative double, which is zero exactly when the length is zero. *)
Theorem C3_ToUnit_nonnegative_zero_iff (l : Length) :
  is_uint64 l ->
  (forall u : Lengths.AUnit, nonnegative_zero_iff (Lengths.ToUnit u l) l) /\
  (forall u : Legacy.AUnit, nonnegative_zero_iff (Legacy.ToUnit u l) l).
Proof.
  intros Hl. split; intros u.
  - apply ToUnit_nonnegative_zero_iff. exact Hl.
  - rewrite Legacy_ToUnit. apply ToUnit_nonnegative_zero_iff. exact Hl.
Qed.

Lemma C3_witness :
  is_uint64 1234567 /\
  nonnegative_zero_iff (Lengths.ToUnit Lengths.AMeters 1234567) 1234567.
Proof.
  assert (H : is_uint64 1234567) by (unfold is_uint64; lia).
  split; [exact H|].
  apply (proj1 (C3_ToUnit_nonnegative_zero_iff 1234567 H)).
Defined.

(** C4 (amended).  For a non-negative double [f] that a converting
    function turns into a length, reading the length back in the same unit
    differs from [f] by less than one nanometer's worth of the unit plus
    [f * 2^-51], the roundoff of the four double operations involved. *)
Theorem C4_round_trip_bound (f : F64.float64) :
  F64.nonneg f = true ->
  (forall (c : Lengths.CUnit) (a : Lengths.AUnit) (l : Length),
     Lengths.accessor_of c = Some a ->
     Lengths.FromUnit c f = Some l ->
     (Qabs (F64.value (Lengths.ToUnit a l) - F64.value f)
      < 1 / inject_Z (Lengths.nanometersPerUnit c) + F64.value f * pow2 (-51))%Q) /\
  (forall (c : Legacy.CUnit) (a : Legacy.AUnit) (l : Length),
     Legacy.accessor_of c = Some a ->
     Legacy.FromUnit c f = Some l ->
     (Qabs (F64.value (Legacy.ToUnit a l) - F64.value f)
      < 1 / inject_Z (Legacy.nanometersPerUnit c) + F64.value f * pow2 (-51))%Q).
Proof.
  intros Hn. split; intros c a l Ha Hl.
  - apply round_trip_bound; assumption.
  - rewrite Legacy_ToUnit, Legacy_nanometersPerUnit.
    rewrite Legacy_FromUnit in Hl.
    apply round_trip_bound; try assumption.
    apply Legacy_accessor_of. exact Ha.
Qed.

Lemma C4_witness :
  F64.nonneg (F64.of_decimal 3919 (-6)) = true /\
  Lengths.accessor_of Lengths.CMillimeters = Some Lengths.AMillimeters /\
  Lengths.FromUnit Lengths.CMillimeters (F64.of_decimal 3919 (-6)) = Some 3918 /\
  (Qabs (F64.value (Lengths.ToUnit Lengths.AMillimeters 3918%Z)
         - F64.value (F64.of_decimal 3919 (-6)))
   < 1 / inject_Z (Lengths.nanometersPerUnit Lengths.CMillimeters)
     + F64.value (F64.of_decimal 3919 (-6)) * pow2 (-51))%Q.
Proof.
  assert (Hn : F64.nonneg (F64.of_decimal 3919 (-6)) = true)
    by (vm_compute; reflexivity).
  assert (Hl : Lengths.FromUnit Lengths.CMillimeters (F64.of_decimal 3919 (-6))
               = Some 3918) by (vm_compute; reflexivity).
  split; [exact Hn|]. split; [reflexivity|]. split; [exact Hl|].
  apply (proj1 (C4_round_trip_bound (F64.of_decimal 3919 (-6)) Hn)
           Lengths.CMillimeters Lengths.AMillimeters 3918%Z); [reflexivity|exact Hl].
Defined.

(** C4 as stated fails: [Millimeters(0.003919)] is 3918 nanometers (the
    double product is just below 3919), and [3918nm] reads back as the
    double 0.003918, which is at least [1/10^6] millimeters away from the
    double 0.003919. *)
Lemma C4_counterexample :
  F64.valid (F64.of_decimal 3919 (-6)) = true /\
  F64.nonneg (F64.of_decimal 3919 (-6)) = true /\
  Lengths.Millimeters (F64.of_decimal 3919 (-6)) = Some 3918 /\
  ~ (Qabs (F64.value (Lengths.Length_Millimeters 3918%Z)
           - F64.value (F64.of_decimal 3919 (-6)))
     < 1 / inject_Z Lengths.Millimeter)%Q.
Proof.
  split; [vm_compute; reflexivity|]. split; [vm_compute; reflexivity|].
  split; [vm_compute; reflexivity|].
  apply Qle_not_lt. vm_compute. discriminate.
Qed.

(** C5.  [String] of the zero length: the older variant returns ["0nm"],
    as the package's test expects; [lengths.go] returns ["0"], without the
    unit. *)
Theorem C5_String_zero :
  Legacy.String 0 = "0nm"%string /\
  Lengths.String 0 = "0"%string /\
  Lengths.String 0 <> "0nm"%string.
Proof.
  split; [reflexivity|]. split; [reflexivity|]. discriminate.
Qed.

(** C6.  [String] picks the unit by ascending thresholds, each boundary
    belonging to the larger unit: nanometers below one micrometer, then
    micrometers, millimeters, centimeters, meters and, in [lengths.go],
    kilometers from one kilometer on; [999999nm] prints in micrometers and
    [1000000nm] in millimeters.  The older variant does so for every
    length.  [lengths.go] does so from one nanometer on, and leaves the
    nanometer tier at the zero length: its first case returns ["0"], which
    is not the nanometer count followed by ["nm"] (the defect of C5). *)
Theorem C6_String_unit_selection :
  (forall l : Length, is_uint64 l ->
     (l < Lengths.Nanometer ->
        Lengths.String l = "0"%string /\
        Lengths.String l <> (Strconv.utoa (l / Lengths.Nanometer) ++ "nm")%string /\
        Legacy.String l = (Strconv.utoa (l / Legacy.Nanometer) ++ "nm")%string) /\
     (Lengths.Nanometer <= l < Lengths.Micrometer ->
        Lengths.String l = (Strconv.utoa (l / Lengths.Nanometer) ++ "nm")%string) /\
     (Lengths.Micrometer <= l < Lengths.Millimeter ->
        Lengths.String l = (formatFloat (Lengths.Length_Micrometers l) ++ "μm")%string) /\
     (Lengths.Millimeter <= l < Lengths.Centimeter ->
        Lengths.String l = (formatFloat (Lengths.Length_Millimeters l) ++ "mm")%string) /\
     (Lengths.Centimeter <= l < Lengths.Meter ->
        Lengths.String l = (formatFloat (Lengths.Length_Centimeters l) ++ "cm")%string) /\
     (Lengths.Meter <= l < Lengths.Kilometer ->
        Lengths.String l = (formatFloat (Lengths.Length_Meters l) ++ "m")%string) /\
     (Lengths.Kilometer <= l ->
        Lengths.String l = (formatFloat (Lengths.Length_Kilometers l) ++ "km")%string)) /\
  (forall l : Length, is_uint64 l ->
     (l < Legacy.Micrometer ->
        Legacy.String l = (Strconv.utoa (l / Legacy.Nanometer) ++ "nm")%string) /\
     (Legacy.Micrometer <= l < Legacy.Millimeter ->
        Legacy.String l = (formatFloat (Legacy.Length_Micrometers l) ++ "μm")%string) /\
     (Legacy.Millimeter <= l < Legacy.Centimeter ->
        Legacy.String l = (formatFloat (Legacy.Length_Millimeters l) ++ "mm")%string) /\
     (Legacy.Centimeter <= l < Legacy.Meter ->
        Legacy.String l = (formatFloat (Legacy.Length_Centimeters l) ++ "cm")%string) /\
     (Legacy.Meter <= l ->
        Legacy.String l = (formatFloat (Legacy.Length_Meters l) ++ "m")%string)) /\
  Lengths.String (999999 * Lengths.Nanometer) = "999.999μm"%string /\
  Lengths.String (1000000 * Lengths.Nanometer) = "1mm"%string /\
  Legacy.String (999999 * Legacy.Nanometer) = "999.999μm"%string /\
  Legacy.String (1000000 * Legacy.Nanometer) = "1mm"%string.
Proof.
  split; [|split].
  - intros l [Hl _].
    destruct (Lengths_String_cases l) as (A0 & A1 & A2 & A3 & A4 & A5 & A6).
    split; [|repeat split; assumption].
    intros H. assert (l = 0) by (change Lengths.Nanometer with 1 in H; lia).
    subst l. split; [reflexivity|]. split; [|reflexivity].
    intros E. vm_compute in E. discriminate E.
  - intros l [Hl _].
    destruct (Legacy_String_cases l) as (A0 & A1 & A2 & A3 & A4 & A5).
    repeat split; try assumption.
    intros H. destruct (Z.eq_dec l 0) as [->|Hnz]; [reflexivity|].
    apply A1. change Legacy.Nanometer with 1. lia.
  - repeat split; vm_compute; reflexivity.
Qed.

Lemma C6_witness :
  is_uint64 999999 /\
  (Lengths.Micrometer <= 999999 < Lengths.Millimeter) /\
  Lengths.String 999999
  = (formatFloat (Lengths.Length_Micrometers 999999) ++ "μm")%string.
Proof.
  assert (H : is_uint64 999999) by (unfold is_uint64; lia).
  assert (R : Lengths.Micrometer <= 999999 < Lengths.Millimeter)
    by (vm_compute; split; [discriminate|reflexivity]).
  split; [exact H|]. split; [exact R|].
  apply (proj1 (proj2 (proj2 (proj1 C6_String_unit_selection 999999 H)))).
  exact R.
Defined.

(** C7.  [FeetAndInches] returns the whole feet [l / Foot] as a double
    that is exactly that integer, and inches in [[0, 12)]; the feet in
    nanometers plus the inches rounded to a nanometer give back [l] (so in
    particular within one nanometer).  Both variants compute the same. *)
Theorem C7_FeetAndInches (l : Length) :
  is_uint64 l ->
  let feet := fst (Lengths.FeetAndInches l) in
  let inches := snd (Lengths.FeetAndInches l) in
  F64.finite feet = true /\
  (F64.value feet == inject_Z (l / Lengths.Foot))%Q /\
  F64.finite inches = true /\
  (0 <= F64.value inches)%Q /\ (F64.value inches < 12)%Q /\
  (Qabs (F64.value feet * inject_Z Lengths.Foot
         + inject_Z (Qround_nearest (F64.value inches * inject_Z Lengths.Inch))
         - inject_Z l) <= 1)%Q /\
  Legacy.FeetAndInches l = Lengths.FeetAndInches l.
Proof.
  intros Hl feet inches.
  destruct (FeetAndInches_spec l Hl) as (A1 & A2 & A3 & A4 & A5 & _ & A7).
  repeat split; assumption.
Qed.

Lemma C7_witness :
  is_uint64 1780000000 /\
  F64.finite (fst (Lengths.FeetAndInches 1780000000)) = true /\
  (F64.value (fst (Lengths.FeetAndInches 1780000000))
   == inject_Z (1780000000 / Lengths.Foot))%Q.
Proof.
  assert (H : is_uint64 1780000000) by (unfold is_uint64; lia).
  split; [exact H|].
  pose proof (C7_FeetAndInches 1780000000 H) as T.
  split; [exact (proj1 T)|exact (proj1 (proj2 T))].
Defined.

(** C8.  The listed lengths print with the fewest digits that identify
    the double, in both variants. *)
Theorem C8_String_examples :
  Lengths.String (1 * Lengths.Nanometer) = "1nm"%string /\
  Lengths.String (1234 * Lengths.Nanometer) = "1.234μm"%string /\
  Lengths.String (1234567 * Lengths.Nanometer) = "1.234567mm"%string /\
  Lengths.String (7654321000 * Lengths.Nanometer) = "7.654321m"%string /\
  Legacy.String (1 * Legacy.Nanometer) = "1nm"%string /\
  Legacy.String (1234 * Legacy.Nanometer) = "1.234μm"%string /\
  Legacy.String (1234567 * Legacy.Nanometer) = "1.234567mm"%string /\
  Legacy.String (7654321000 * Legacy.Nanometer) = "7.654321m"%string.
Proof. repeat split; vm_compute; reflexivity. Qed.

(** C9.  [Inches(1.0)] is exactly the [Inch] constant, 25,400,000
    nanometers: the double product is that integer, nothing is discarded. *)
Theorem C9_Inches_one :
  Lengths.Inches (F64.of_decimal 1 0) = Some Lengths.Inch /\
  Legacy.Inches (F64.of_decimal 1 0) = Some Legacy.Inch /\
  Lengths.Inch = 25400000 /\
  (F64.value (product Lengths.Inch (F64.of_decimal 1 0)) == inject_Z 25400000)%Q.
Proof. repeat split; vm_compute; reflexivity. Qed.

(** C10.  The two [String] functions return the same string exactly for
    the lengths from one nanometer up to, not including, one kilometer.
    At zero they return ["0"] and ["0nm"]; from one kilometer on one prints
    kilometers and the other meters. *)
Theorem C10_String_variants :
  (forall l : Length, is_uint64 l ->
     (Lengths.String l = Legacy.String l <->
      Lengths.Nanometer <= l < Lengths.Kilometer)) /\
  (Lengths.String 0 = "0"%string /\ Legacy.String 0 = "0nm"%string) /\
  (forall l : Length, Lengths.Kilometer <= l ->
     Lengths.String l = (formatFloat (Lengths.Length_Kilometers l) ++ "km")%string /\
     Legacy.String l = (formatFloat (Legacy.Length_Meters l) ++ "m")%string).
Proof.
  assert (Km : forall l, Lengths.Kilometer <= l ->
     Lengths.String l = (formatFloat (Lengths.Length_Kilometers l) ++ "km")%string /\
     Legacy.String l = (formatFloat (Legacy.Length_Meters l) ++ "m")%string).
  { intros l H.
    destruct (Lengths_String_cases l) as (_ & _ & _ & _ & _ & _ & A6).
    destruct (Legacy_String_cases l) as (_ & _ & _ & _ & _ & B5).
    split; [apply A6; exact H|apply B5].
    change Legacy.Meter with 1000000000.
    change Lengths.Kilometer with 1000000000000 in H. lia. }
  split; [|split; [split; reflexivity|exact Km]].
  intros l [Hl _].
  destruct (Lengths_String_cases l) as (_ & A1 & A2 & A3 & A4 & A5 & _).
  destruct (Legacy_String_cases l) as (_ & B1 & B2 & B3 & B4 & B5).
  change Lengths.Nanometer with 1 in *. change Lengths.Micrometer with 1000 in *.
  change Lengths.Millimeter with 1000000 in *.
  change Lengths.Centimeter with 10000000 in *.
  change Lengths.Meter with 1000000000 in *.
  change Lengths.Kilometer with 1000000000000 in *.
  change Legacy.Nanometer with 1 in *. change Legacy.Micrometer with 1000 in *.
  change Legacy.Millimeter with 1000000 in *.
  change Legacy.Centimeter with 10000000 in *.
  change Legacy.Meter with 1000000000 in *.
  split.
  - intros E.
    destruct (Z.eq_dec l 0) as [->|Hnz]; [discriminate E|].
    destruct (Z_lt_le_dec l 1000000000000) as [Hlt|Hge]; [lia|].
    exfalso. destruct (Km l Hge) as [K1 K2]. rewrite K1, K2 in E.
    exact (km_suffix_differs _ _ E).
  - intros H.
    destruct (Z_lt_le_dec l 1000) as [C1|C1]; [rewrite A1, B1 by lia; reflexivity|].
    destruct (Z_lt_le_dec l 1000000) as [C2|C2]; [rewrite A2, B2 by lia; reflexivity|].
    destruct (Z_lt_le_dec l 10000000) as [C3|C3]; [rewrite A3, B3 by lia; reflexivity|].
    destruct (Z_lt_le_dec l 1000000000) as [C4|C4]; [rewrite A4, B4 by lia; reflexivity|].
    rewrite A5, B5 by lia. reflexivity.
Qed.

Lemma C10_witness :
  is_uint64 1234 /\
  (Lengths.Nanometer <= 1234 < Lengths.Kilometer) /\
  Lengths.String 1234 = Legacy.String 1234.
Proof.
  assert (H : is_uint64 1234) by (unfold is_uint64; lia).
  assert (R : Lengths.Nanometer <= 1234 < Lengths.Kilometer)
    by (vm_compute; split; [discriminate|reflexivity]).
  split; [exact H|]. split; [exact R|].
  apply (proj2 (proj1 C10_String_variants 1234 H)). exact R.
Defined.

(** ** Exact operations on whole numbers *)

Lemma inject_Z_eq (a b : Z) : (inject_Z a == inject_Z b)%Q -> a = b.
Proof.
  intros H. unfold Qeq in H. cbn in H. lia.
Qed.

(** An exact mantissa whose value is an integer below [2^53] is rounded to
    that integer. *)
Lemma round_aux_exact_int (mx ex N : Z) :
  0 < mx -> 0 < N < 2 ^ 53 ->
  (inject_Z mx * pow2 ex == inject_Z N)%Q ->
  let r := binary_round_aux F64.prec F64.emax false mx ex loc_Exact in
  F64.finite r = true /\ F64.nonneg r = true /\ (F64.value r == inject_Z N)%Q.
Proof.
  intros Hm HN Hv r.
  assert (IB : inbetween mx loc_Exact (inject_Z mx)) by (cbn [inbetween]; reflexivity).
  assert (Du : Zdigits2 mx + ex <= 53).
  { apply (digits_upper mx ex 53 (inject_Z mx)); [lia|lra|].
    rewrite Hv, <- pow2_inject by lia. apply inject_Z_lt. lia. }
  set (e' := Z.max ex (fexp F64.prec F64.emax (Zdigits2 mx + ex))).
  assert (Hex : ex < 53).
  { destruct (Z_lt_le_dec ex 53) as [H|H]; [exact H|exfalso].
    assert (A : (pow2 53 <= inject_Z mx * pow2 ex)%Q).
    { pose proof (pow2_le 53 ex H) as P. pose proof (pow2_pos 53) as P0.
      assert (1 <= inject_Z mx)%Q
        by (change 1%Q with (inject_Z 1); apply inject_Z_le; lia).
      nra. }
    rewrite Hv, <- pow2_inject in A by lia. rewrite <- Zle_Qle in A. lia. }
  assert (He : e' <= 970) by (unfold e'; rewrite fexp_eq; lia).
  destruct (Z.eq_dec e' ex) as [Eq|Ne].
  - destruct (round_aux_value mx ex loc_Exact (inject_Z mx) ltac:(lia) IB He)
      as (A1 & A2 & _ & _ & A5 & _).
    fold r in A1, A2, A5. split; [exact A1|]. split; [exact A2|].
    rewrite (A5 eq_refl Eq). exact Hv.
  - assert (Hlt : ex < e') by (unfold e' in *; lia).
    assert (He0 : e' <= 0) by (unfold e' in *; rewrite fexp_eq in *; lia).
    assert (Hmx : mx = N * 2 ^ (- e') * 2 ^ (e' - ex)).
    { apply inject_Z_eq.
      rewrite <- Z.mul_assoc, <- Z.pow_add_r by lia.
      replace (- e' + (e' - ex)) with (- ex) by lia.
      rewrite inject_Z_mult, pow2_inject by lia.
      rewrite <- Hv, <- Qmult_assoc, <- pow2_add.
      replace (ex + - ex) with 0 by lia. change (pow2 0) with 1%Q. ring. }
    set (Y := N * 2 ^ (- e')).
    assert (E : (inject_Z mx == inject_Z (2 ^ (e' - ex)) * inject_Z Y)%Q).
    { rewrite Hmx. fold Y. rewrite inject_Z_mult. ring. }
    destruct (binary_round_aux_spec false mx ex loc_Exact (inject_Z mx) (inject_Z Y)
                ltac:(lia) IB E) as (m1 & B1 & B2 & B3 & _ & B5).
    fold e' in B1, B5. fold r in B5.
    assert (Hm1 : m1 = Y).
    { assert (A : (inject_Z m1 < inject_Z Y + 1)%Q) by lra.
      assert (B : (inject_Z Y < inject_Z m1 + 1)%Q) by lra.
      change 1%Q with (inject_Z 1) in A, B. rewrite <- inject_Z_plus in A, B.
      rewrite <- Zlt_Qlt in A, B. lia. }
    assert (HY : 0 <= Y).
    { unfold Y. apply Z.mul_nonneg_nonneg; [lia|]. apply Z.pow_nonneg. lia. }
    destruct (pack_value_gen m1 e' ltac:(lia)) as (P1 & P2 & P3).
    rewrite <- B5 in P1, P2, P3.
    split; [exact (P2 He)|]. split; [exact P1|].
    rewrite (P3 (P2 He)), Hm1. unfold Y.
    rewrite inject_Z_mult, pow2_inject by lia.
    rewrite <- Qmult_assoc, <- pow2_add.
    replace (- e' + e') with 0 by lia. change (pow2 0) with 1%Q. ring.
Qed.

Theorem mul_exact_int (m1 m2 : positive) (e1 e2 N : Z) :
  0 < N < 2 ^ 53 ->
  (F64.value (S754_finite false m1 e1) * F64.value (S754_finite false m2 e2)
   == inject_Z N)%Q ->
  let r := F64.mul (S754_finite false m1 e1) (S754_finite false m2 e2) in
  F64.finite r = true /\ F64.nonneg r = true /\ (F64.value r == inject_Z N)%Q.
Proof.
  intros HN Hv r. unfold r. rewrite mul_unfold.
  apply round_aux_exact_int; [lia|exact HN|].
  rewrite mul_value. exact Hv.
Qed.

(** [float64(n)] of a positive [uint64] is a positive mantissa and an
    exponent. *)
Lemma of_uint64_form (n : Z) :
  0 < n < 2 ^ 64 -> exists m e, F64.of_uint64 n = S754_finite false m e.
Proof.
  intros Hn. destruct (of_uint64_rel n Hn) as (A1 & A2 & A3 & _).
  apply positive_form; try assumption.
  assert (1 <= inject_Z n)%Q
    by (change 1%Q with (inject_Z 1); apply inject_Z_le; lia).
  rewrite u53_eq in A3. lra.
Qed.

(** The two-step computation on a whole number of units. *)
Lemma two_step_whole (K n : Z) :
  0 < K < 2 ^ 53 -> 0 <= n -> n * K < 2 ^ 64 ->
  two_step K (n * K) = F64.of_uint64 n.
Proof.
  intros HK Hn Hl. unfold two_step.
  rewrite Z.div_mul, Z.mod_mul by lia.
  destruct (of_uint64_exact K ltac:(lia)) as (K1 & K2 & K3).
  assert (HKq : (0 < inject_Z K)%Q)
    by (change 0%Q with (inject_Z 0); apply inject_Z_lt; lia).
  destruct (positive_form _ K1 K2 ltac:(rewrite K3; exact HKq)) as (mk & ek & EK).
  rewrite EK.
  change (F64.div (F64.of_uint64 0) (S754_finite false mk ek)) with (S754_zero false).
  destruct (Z.eq_dec n 0) as [->|Hnz]; [reflexivity|].
  destruct (of_uint64_form n ltac:(nia)) as (m & e & E).
  rewrite E. reflexivity.
Qed.

Lemma ToUnit_whole (a : Lengths.AUnit) (n : Z) :
  0 <= n -> is_uint64 (n * Lengths.nanometersPerAUnit a) ->
  Lengths.ToUnit a (n * Lengths.nanometersPerAUnit a) = F64.of_uint64 n.
Proof.
  intros Hn [_ Hl]. rewrite divisor_constant.
  apply two_step_whole; [apply unit_constant_bounds|exact Hn|exact Hl].
Qed.

Lemma FromUnit_whole (c : Lengths.CUnit) (n : Z) :
  0 <= n -> n * Lengths.nanometersPerUnit c < 2 ^ 53 ->
  Lengths.FromUnit c (F64.of_uint64 n) = Some (n * Lengths.nanometersPerUnit c).
Proof.
  intros Hn Hl. rewrite FromUnit_product. unfold product.
  pose proof (constructor_unit_bounds c) as HK.
  set (K := Lengths.nanometersPerUnit c) in *.
  destruct (Z.eq_dec n 0) as [->|Hnz].
  { destruct (unit_float c) as (mk & ek & EK & _). fold K in EK. rewrite EK.
    reflexivity. }
  assert (Hn53 : 0 < n < 2 ^ 53) by nia.
  destruct (of_uint64_exact n ltac:(lia)) as (_ & _ & N3).
  destruct (of_uint64_exact K ltac:(lia)) as (_ & _ & K3).
  destruct (of_uint64_form n ltac:(lia)) as (mn & en & EN).
  destruct (of_uint64_form K ltac:(lia)) as (mk & ek & EK).
  rewrite EN in N3 |- *. rewrite EK in K3 |- *.
  destruct (mul_exact_int mn mk en ek (n * K) ltac:(nia)) as (F & N & V).
  { rewrite N3, K3, inject_Z_mult. reflexivity. }
  rewrite to_uint64_floor; try assumption.
  - rewrite V, Qfloor_Z. reflexivity.
  - rewrite V. apply inject_Z_lt. lia.
Qed.

(** ** Building a length back from an accessor's result *)

Lemma Qfloor_between (x : Q) (l : Z) :
  (inject_Z l - 1 < x)%Q -> (x < inject_Z l + 1)%Q ->
  Qfloor x = l \/ Qfloor x = l - 1.
Proof.
  intros H1 H2. destruct (Qlt_le_dec x (inject_Z l)) as [Lt|Ge].
  - right.
    assert (E : (inject_Z (l - 1) == inject_Z l - 1)%Q)
      by (unfold Z.sub; rewrite inject_Z_plus, inject_Z_opp; reflexivity).
    apply Qfloor_unique; rewrite E; lra.
  - left. apply Qfloor_unique; lra.
Qed.

Lemma rebuild_generic (K l : Z) :
  0 < K < 2 ^ 53 ->
  (exists mk ek, F64.of_uint64 K = S754_finite false mk ek /\
                 53 <= Zdigits2 (Zpos mk)) ->
  0 <= l < 2 ^ 51 ->
  F64.to_uint64 (F64.mul (two_step K l) (F64.of_uint64 K)) = Some l \/
  F64.to_uint64 (F64.mul (two_step K l) (F64.of_uint64 K)) = Some (l - 1).
Proof.
  intros HK (mk & ek & EK & Dk) Hl.
  destruct (of_uint64_exact K ltac:(lia)) as (_ & _ & K3).
  rewrite EK in K3 |- *.
  destruct (Z.eq_dec l 0) as [->|Hnz].
  { left. unfold two_step. rewrite Z.div_0_l, Z.mod_0_l by lia.
    rewrite EK. reflexivity. }
  destruct (two_step_bounds K l HK ltac:(lia)) as (F & N & Lo & Hi).
  pose proof u53_eq as U. rewrite U in Lo, Hi.
  set (kq := inject_Z K) in *.
  assert (Hk : (0 < kq)%Q) by (change 0%Q with (inject_Z 0); apply inject_Z_lt; lia).
  set (L := (inject_Z l / kq)%Q) in *.
  assert (HL : (L * kq == inject_Z l)%Q) by (unfold L; field; lra).
  assert (Hl1 : (1 <= inject_Z l)%Q)
    by (change 1%Q with (inject_Z 1); apply inject_Z_le; lia).
  assert (Hl2 : (inject_Z l < 2251799813685248)%Q)
    by (change 2251799813685248%Q with (inject_Z (2 ^ 51)); apply inject_Z_lt; lia).
  assert (HL0 : (0 < L)%Q) by (apply quotient_pos; lia).
  destruct (positive_form _ F N ltac:(lra)) as (m & e & E).
  rewrite E in Lo, Hi |- *.
  set (rv := F64.value (S754_finite false m e)) in *.
  (* the exact product lies within l * (1 +- u)^2 *)
  assert (P1 : (inject_Z l * (1 - (1 # 9007199254740992)) * (1 - (1 # 9007199254740992))
                <= rv * kq)%Q).
  { rewrite <- HL.
    setoid_replace (L * kq * (1 - (1 # 9007199254740992)) * (1 - (1 # 9007199254740992)))%Q
      with (L * (1 - (1 # 9007199254740992)) * (1 - (1 # 9007199254740992)) * kq)%Q by ring.
    apply Qmult_le_compat_r; lra. }
  assert (P2 : (rv * kq
                <= inject_Z l * (1 + (1 # 9007199254740992)) * (1 + (1 # 9007199254740992)))%Q).
  { rewrite <- HL.
    setoid_replace (L * kq * (1 + (1 # 9007199254740992)) * (1 + (1 # 9007199254740992)))%Q
      with (L * (1 + (1 # 9007199254740992)) * (1 + (1 # 9007199254740992)) * kq)%Q by ring.
    apply Qmult_le_compat_r; lra. }
  destruct (mul_rel_gen m mk e ek Dk) as (Np & Fp & Bp).
  { fold rv. rewrite K3. fold kq.
    apply Qle_trans with (1 # 2)%Q; [discriminate|lra]. }
  fold rv in Fp, Bp. rewrite K3 in Fp, Bp. fold kq in Fp, Bp.
  assert (Fin : F64.finite (F64.mul (S754_finite false m e) (S754_finite false mk ek)) = true).
  { apply Fp. apply Qlt_le_trans with 4503599627370496%Q; [lra|discriminate]. }
  destruct (Bp Fin) as (B1 & B2). rewrite U in B1, B2.
  set (pv := F64.value (F64.mul (S754_finite false m e) (S754_finite false mk ek))) in *.
  rewrite to_uint64_floor; try assumption.
  - fold pv. destruct (Qfloor_between pv l) as [H|H]; [lra|lra| |]; rewrite H; auto.
  - fold pv. apply Qlt_le_trans with 4503599627370496%Q; [lra|discriminate].
Qed.

Lemma rebuild_bound (c : Lengths.CUnit) (a : Lengths.AUnit) (l : Length) :
  Lengths.accessor_of c = Some a -> 0 <= l < 2 ^ 51 ->
  Lengths.FromUnit c (Lengths.ToUnit a l) = Some l \/
  Lengths.FromUnit c (Lengths.ToUnit a l) = Some (l - 1).
Proof.
  intros Ha Hl. rewrite FromUnit_product, divisor_constant.
  rewrite (accessor_of_constant c a Ha). unfold product.
  apply rebuild_generic; [apply constructor_unit_bounds|apply unit_float|exact Hl].
Qed.

(** ** A converting function against the exact product *)

Lemma constructor_generic (K : Z) (f : F64.float64) (l : Z) :
  0 < K < 2 ^ 53 ->
  (exists mk ek, F64.of_uint64 K = S754_finite false mk ek /\
                 53 <= Zdigits2 (Zpos mk)) ->
  F64.nonneg f = true ->
  F64.to_uint64 (F64.mul f (F64.of_uint64 K)) = Some l ->
  (F64.value f * inject_Z K * (1 - u53) - 1 < inject_Z l)%Q /\
  (inject_Z l <= F64.value f * inject_Z K * (1 + u53))%Q.
Proof.
  intros HK (mk & ek & EK & Dk) Hn Hl.
  destruct (of_uint64_exact K ltac:(lia)) as (_ & _ & K3).
  rewrite EK in K3, Hl.
  pose proof (mul_nonneg f mk ek Hn) as Np.
  destruct (to_uint64_inv _ _ Np Hl) as (Fp & Lf & Lr).
  pose proof (nonneg_value _ Np) as Pv0.
  pose proof (Qfloor_le (F64.value (F64.mul f (S754_finite false mk ek)))) as Fl1.
  pose proof (Qlt_floor (F64.value (F64.mul f (S754_finite false mk ek)))) as Fl2.
  rewrite <- Lf in Fl1, Fl2. rewrite inject_Z_plus in Fl2.
  change (inject_Z 1) with 1%Q in Fl2.
  rewrite u53_eq.
  set (kq := inject_Z K) in *.
  assert (Hk : (0 < kq)%Q) by (change 0%Q with (inject_Z 0); apply inject_Z_lt; lia).
  set (pv := F64.value (F64.mul f (S754_finite false mk ek))) in *.
  assert (Hl0 : (0 <= inject_Z l)%Q)
    by (change 0%Q with (inject_Z 0); apply inject_Z_le; lia).
  destruct f as [s|s| |s m e]; try discriminate.
  - assert (E : (pv == 0)%Q) by (unfold pv; destruct s; reflexivity).
    cbn [F64.value]. rewrite !Qmult_0_l. split; lra.
  - destruct s; [discriminate Hn|].
    set (fv := F64.value (S754_finite false m e)) in *.
    assert (Hf0 : (0 < fv)%Q) by apply value_finite_pos.
    assert (HP0 : (0 < fv * kq)%Q) by (apply Qmult_lt_0_compat; assumption).
    destruct (Qlt_le_dec (fv * kq) (1 # 2)) as [Small|Big].
    + destruct (mul_small m mk e ek Dk) as (_ & _ & S3).
      { fold fv. rewrite K3. exact Small. }
      fold pv in S3.
      assert (Hl1 : (inject_Z l < 1)%Q) by lra.
      change 1%Q with (inject_Z 1) in Hl1. rewrite <- Zlt_Qlt in Hl1.
      assert (E0 : l = 0) by lia. rewrite E0. change (inject_Z 0) with 0%Q.
      split; lra.
    + destruct (mul_rel_gen m mk e ek Dk) as (_ & _ & B).
      { fold fv. rewrite K3. fold kq.
        apply Qle_trans with (1 # 2)%Q; [discriminate|exact Big]. }
      destruct (B Fp) as (B1 & B2). fold fv pv in B1, B2.
      rewrite K3, u53_eq in B1, B2. fold kq in B1, B2.
      split; lra.
Qed.

Lemma FromUnit_real_bound (c : Lengths.CUnit) (f : F64.float64) (l : Length) :
  F64.nonneg f = true ->
  Lengths.FromUnit c f = Some l ->
  (F64.value f * inject_Z (Lengths.nanometersPerUnit c) * (1 - u53) - 1
   < inject_Z l)%Q /\
  (inject_Z l
   <= F64.value f * inject_Z (Lengths.nanometersPerUnit c) * (1 + u53))%Q.
Proof.
  intros Hn Hl. rewrite FromUnit_product in Hl.
  apply constructor_generic; try assumption.
  - apply constructor_unit_bounds.
  - apply unit_float.
Qed.

(** ** Whole feet and whole inches *)

Lemma FeetAndInches_whole (ft i : Z) :
  0 <= ft -> 0 <= i < 12 ->
  is_uint64 (ft * Lengths.Foot + i * Lengths.Inch) ->
  Lengths.FeetAndInches (ft * Lengths.Foot + i * Lengths.Inch)
  = (F64.of_uint64 ft, F64.of_uint64 i).
Proof.
  intros Hf Hi [_ Hl]. unfold Lengths.FeetAndInches.
  change Lengths.Foot with 304800000 in *. change Lengths.Inch with 25400000 in *.
  assert (Q : (ft * 304800000 + i * 25400000) / 304800000 = ft).
  { symmetry. apply Z.div_unique with (i * 25400000); lia. }
  assert (R : (ft * 304800000 + i * 25400000) mod 304800000 = i * 25400000).
  { symmetry. apply Z.mod_unique with ft; lia. }
  cbv zeta. rewrite Q, R. f_equal.
  change (Lengths.Length_Inches (i * 25400000)) with (two_step 25400000 (i * 25400000)).
  apply two_step_whole; lia.
Qed.

(** ** Printing a whole number *)

Lemma eqb_finite_eq (m1 m2 : positive) (e1 e2 : Z) :
  F64.eqb (S754_finite false m1 e1) (S754_finite false m2 e2) = true ->
  m1 = m2 /\ e1 = e2.
Proof.
  unfold F64.eqb, SFeqb, SFcompare.
  destruct (Z.compare_spec e1 e2) as [E|E|E]; try discriminate.
  rewrite Pos.compare_cont_spec. cbn [Pos.switch_Eq].
  destruct (Pos.compare_spec m1 m2) as [M|M|M]; try discriminate.
  intros _. split; assumption.
Qed.

(** Distinct integers convert to distinct doubles when one of them is
    below [2^52]. *)
Lemma of_uint64_distinct (a n : Z) :
  0 < a < 2 ^ 64 -> 0 < n < 2 ^ 52 -> a <> n ->
  F64.eqb (F64.of_uint64 a) (F64.of_uint64 n) = false.
Proof.
  intros Ha Hn Hne.
  destruct (F64.eqb (F64.of_uint64 a) (F64.of_uint64 n)) eqn:E; [exfalso|reflexivity].
  destruct (of_uint64_form a Ha) as (ma & ea & Ea).
  destruct (of_uint64_form n ltac:(lia)) as (mn & en & En).
  destruct (of_uint64_rel a Ha) as (_ & _ & A3 & A4).
  destruct (of_uint64_exact n ltac:(lia)) as (_ & _ & N3).
  rewrite Ea, En in E. apply eqb_finite_eq in E. destruct E as [-> ->].
  rewrite Ea in A3, A4. rewrite En in N3. rewrite N3, u53_eq in A3, A4.
  assert (Hn2 : (inject_Z n < 4503599627370496)%Q)
    by (change 4503599627370496%Q with (inject_Z (2 ^ 52)); apply inject_Z_lt; lia).
  assert (Hn1 : (1 <= inject_Z n)%Q)
    by (change 1%Q with (inject_Z 1); apply inject_Z_le; lia).
  destruct (Z_lt_le_dec a n) as [Lt|Ge].
  - assert (B : (inject_Z a <= inject_Z n - 1)%Q).
    { assert (E : (inject_Z (n - 1) == inject_Z n - 1)%Q)
        by (unfold Z.sub; rewrite inject_Z_plus, inject_Z_opp; reflexivity).
      rewrite <- E. apply inject_Z_le. lia. }
    lra.
  - assert (B : (inject_Z n + 1 <= inject_Z a)%Q).
    { change 1%Q with (inject_Z 1). rewrite <- inject_Z_plus.
      apply inject_Z_le. lia. }
    lra.
Qed.

Lemma of_decimal_whole (lo x : Z) :
  0 < lo -> 0 <= x -> F64.of_decimal lo x = F64.of_uint64 (lo * 10 ^ x).
Proof.
  intros Hlo Hx. unfold F64.of_decimal. destruct lo as [|p|p]; try lia.
  destruct (Z.leb_spec 0 x); [reflexivity|lia].
Qed.

Lemma fraction_whole (m : positive) (e n : Z) :
  (F64.value (S754_finite false m e) == inject_Z n)%Q ->
  exists den, 0 < den /\ Strconv.fraction m e = (den * n, den).
Proof.
  intros Hv. rewrite value_pos_eq in Hv. unfold Strconv.fraction.
  destruct e as [|k|k].
  - exists 1. split; [lia|]. change (pow2 0) with 1%Q in Hv.
    rewrite Qmult_1_r in Hv. apply inject_Z_eq in Hv.
    rewrite Z.pow_0_r, Z.mul_1_r, Hv. f_equal. lia.
  - exists 1. split; [lia|].
    rewrite <- pow2_inject, <- inject_Z_mult in Hv by lia.
    apply inject_Z_eq in Hv. rewrite Hv. f_equal. lia.
  - exists (2 ^ Zpos k). split; [apply Z.pow_pos_nonneg; lia|].
    f_equal. apply inject_Z_eq.
    rewrite inject_Z_mult, pow2_inject, <- Hv by lia.
    rewrite (Qmult_comm (pow2 (Zpos k))), <- Qmult_assoc, <- pow2_add.
    change (Zneg k + Zpos k) with (- Zpos k + Zpos k).
    rewrite Z.add_opp_diag_l. change (pow2 0) with 1%Q. ring.
Qed.

Lemma shortest_loop_eq (fuel : nat) (f : F64.float64) (m : positive) (e x : Z) :
  Strconv.shortest_loop fuel f m e x =
  let '(a, b) := Strconv.scaled m e x in
  let lo := a / b in
  let r := a mod b in
  if r =? 0 then (lo, x)
  else
    let okdown := (0 <? lo) && F64.eqb (F64.of_decimal lo x) f in
    let okup := F64.eqb (F64.of_decimal (lo + 1) x) f in
    let up :=
      match 2 * r ?= b with
      | Lt => false
      | Gt => true
      | Eq => Z.odd lo
      end in
    if okdown && okup then ((if up then lo + 1 else lo), x)
    else if okdown then (lo, x)
    else if okup then (lo + 1, x)
    else
      match fuel with
      | O => (lo, x)
      | S k => Strconv.shortest_loop k f m e (x - 1)
      end.
Proof. destruct fuel; reflexivity. Qed.

Lemma shortest_loop_whole (m : positive) (e n den : Z) :
  0 < n < 2 ^ 52 ->
  F64.of_uint64 n = S754_finite false m e ->
  0 < den -> Strconv.fraction m e = (den * n, den) ->
  forall (k fuel : nat), (k <= fuel)%nat -> Z.of_nat k <= 18 ->
    exists d x,
      Strconv.shortest_loop fuel (S754_finite false m e) m e (Z.of_nat k) = (d, x) /\
      0 <= x /\ d * 10 ^ x = n.
Proof.
  intros Hn Ef Hden Hfr.
  induction k as [|k IH]; intros fuel Hk Hx;
    rewrite shortest_loop_eq; unfold Strconv.scaled; rewrite Hfr.
  - change (Z.of_nat 0) with 0. cbn [Z.leb Z.compare]. cbv iota beta.
    change (10 ^ 0) with 1. rewrite Z.mul_1_r, Z.mul_comm, Z.div_mul, Z.mod_mul by lia.
    cbv zeta. cbn [Z.eqb]. exists n, 0. split; [reflexivity|]. split; lia.
  - set (x := Z.of_nat (S k)) in *.
    assert (Hx0 : 0 < x) by (unfold x; lia).
    destruct (Z.leb_spec 0 x) as [_|]; [|lia].
    assert (Hp : 0 < 10 ^ x) by (apply Z.pow_pos_nonneg; lia).
    assert (Hp18 : 10 ^ x <= 10 ^ 18) by (apply Z.pow_le_mono_r; lia).
    cbv zeta.
    rewrite Z.div_mul_cancel_l, Z.mul_mod_distr_l by lia.
    pose proof (Z.div_mod n (10 ^ x) ltac:(lia)) as DM.
    pose proof (Z.mod_pos_bound n (10 ^ x) Hp) as MB.
    assert (Hlo : 0 <= n / 10 ^ x) by (apply Z.div_pos; lia).
    set (lo := n / 10 ^ x) in *. set (r := n mod 10 ^ x) in *.
    destruct (Z.eqb_spec (den * r) 0) as [Z0|NZ].
    + exists lo, x. split; [reflexivity|]. split; [lia|]. nia.
    + assert (Hr : 0 < r) by nia.
      assert (Down : (0 <? lo) && F64.eqb (F64.of_decimal lo x) (S754_finite false m e) = false).
      { destruct (Z.ltb_spec 0 lo) as [Hpos|]; [|reflexivity].
        rewrite of_decimal_whole, <- Ef by lia. cbn [andb].
        apply of_uint64_distinct; nia. }
      assert (Up : F64.eqb (F64.of_decimal (lo + 1) x) (S754_finite false m e) = false).
      { rewrite of_decimal_whole, <- Ef by lia.
        apply of_uint64_distinct; nia. }
      rewrite Down, Up. cbn [andb].
      destruct fuel as [|fuel]; [lia|].
      replace (x - 1) with (Z.of_nat k) by (unfold x; lia).
      apply IH; lia.
Qed.

Theorem formatFloat_whole (n : Z) :
  0 < n < 2 ^ 52 -> formatFloat (F64.of_uint64 n) = Strconv.utoa n.
Proof.
  intros Hn.
  destruct (of_uint64_form n ltac:(lia)) as (m & e & Ef).
  destruct (of_uint64_exact n ltac:(lia)) as (_ & _ & V).
  rewrite Ef in V |- *.
  destruct (fraction_whole m e n V) as (den & Hden & Hfr).
  unfold formatFloat, Strconv.FormatFloat_f_shortest, Strconv.shortest.
  rewrite Hfr. rewrite Z.mul_comm, Z.div_mul by lia.
  set (x0 := Z.log2 (n + 1) / 3 + 1).
  assert (Hx0 : 0 <= x0 <= 18).
  { unfold x0. assert (L : 0 <= Z.log2 (n + 1) <= 52).
    { split; [apply Z.log2_nonneg|].
      assert (Z.log2 (n + 1) < 53); [|lia].
      apply Z.log2_lt_pow2; lia. }
    assert (0 <= Z.log2 (n + 1) / 3 <= 17); [|lia].
    split; [apply Z.div_pos; lia|].
    apply Z.lt_succ_r. apply Z.div_lt_upper_bound; lia. }
  destruct (shortest_loop_whole m e n den Hn Ef Hden Hfr
              (Z.to_nat x0) (Z.to_nat (x0 + 1100)) ltac:(lia) ltac:(lia))
    as (d & x & L & Hx & Hd).
  rewrite Z2Nat.id in L by lia. rewrite L.
  change (Strconv.strip_zeros 400 d x) with
    (if (x <? 0) && (d mod 10 =? 0) && negb (d =? 0)
     then Strconv.strip_zeros 399 (d / 10) (x + 1) else (d, x)).
  destruct (Z.ltb_spec x 0) as [|_]; [lia|]. cbn [andb].
  unfold Strconv.fmtF. destruct (Z.leb_spec 0 x) as [_|]; [|lia].
  rewrite Hd. reflexivity.
Qed.

(** * Further properties of the package *)

(** X1.  An accessor applied to a whole number [n] of its unit returns
    exactly [float64(n)], in both variants; below [2^53] that double is
    the integer [n] itself. *)
Theorem X1_ToUnit_whole_units (n : Z) :
  0 <= n ->
  (forall a : Lengths.AUnit,
     is_uint64 (n * Lengths.nanometersPerAUnit a) ->
     Lengths.ToUnit a (n * Lengths.nanometersPerAUnit a) = F64.of_uint64 n) /\
  (forall a : Legacy.AUnit,
     is_uint64 (n * Legacy.nanometersPerAUnit a) ->
     Legacy.ToUnit a (n * Legacy.nanometersPerAUnit a) = F64.of_uint64 n) /\
  (n < 2 ^ 53 -> (F64.value (F64.of_uint64 n) == inject_Z n)%Q).
Proof.
  intros Hn. split; [|split].
  - intros a Hl. apply ToUnit_whole; assumption.
  - intros a Hl. rewrite Legacy_ToUnit, Legacy_nanometersPerAUnit in *.
    apply ToUnit_whole; assumption.
  - intros H. apply of_uint64_exact. lia.
Qed.

Lemma X1_witness :
  0 <= 10 /\ is_uint64 (10 * Lengths.nanometersPerAUnit Lengths.AMeters) /\
  Lengths.ToUnit Lengths.AMeters (10 * Lengths.nanometersPerAUnit Lengths.AMeters)
  = F64.of_uint64 10.
Proof.
  assert (H0 : 0 <= 10) by lia.
  assert (H1 : is_uint64 (10 * Lengths.nanometersPerAUnit Lengths.AMeters))
    by (vm_compute; split; [discriminate|reflexivity]).
  split; [exact H0|]. split; [exact H1|].
  apply (proj1 (X1_ToUnit_whole_units 10 H0)). exact H1.
Defined.

(** X2.  A converting function applied to the double of a whole number
    [n] returns exactly [n] units, as long as that length is below [2^53]
    nanometers (where the double product is exact). *)
Theorem X2_FromUnit_whole_numbers (n : Z) :
  0 <= n ->
  (forall c : Lengths.CUnit,
     n * Lengths.nanometersPerUnit c < 2 ^ 53 ->
     Lengths.FromUnit c (F64.of_uint64 n) = Some (n * Lengths.nanometersPerUnit c)) /\
  (forall c : Legacy.CUnit,
     n * Legacy.nanometersPerUnit c < 2 ^ 53 ->
     Legacy.FromUnit c (F64.of_uint64 n) = Some (n * Legacy.nanometersPerUnit c)).
Proof.
  intros Hn. split; intros c Hl.
  - apply FromUnit_whole; assumption.
  - rewrite Legacy_FromUnit, Legacy_nanometersPerUnit in *.
    apply FromUnit_whole; assumption.
Qed.

Lemma X2_witness :
  0 <= 178 /\ 178 * Lengths.nanometersPerUnit Lengths.CCentimeters < 2 ^ 53 /\
  Lengths.FromUnit Lengths.CCentimeters (F64.of_uint64 178)
  = Some (178 * Lengths.nanometersPerUnit Lengths.CCentimeters).
Proof.
  assert (H0 : 0 <= 178) by lia.
  assert (H1 : 178 * Lengths.nanometersPerUnit Lengths.CCentimeters < 2 ^ 53)
    by (vm_compute; reflexivity).
  split; [exact H0|]. split; [exact H1|].
  apply (proj1 (X2_FromUnit_whole_numbers 178 H0)). exact H1.
Defined.

(** X3.  Round trip on whole numbers: building a length from the double
    of a whole number [n] of units (below [2^53] nanometers) and reading
    it back in the same unit returns the same double. *)
Theorem X3_round_trip_whole_numbers (n : Z) :
  0 <= n ->
  (forall (c : Lengths.CUnit) (a : Lengths.AUnit),
     Lengths.accessor_of c = Some a ->
     n * Lengths.nanometersPerUnit c < 2 ^ 53 ->
     exists l, Lengths.FromUnit c (F64.of_uint64 n) = Some l /\
               Lengths.ToUnit a l = F64.of_uint64 n) /\
  (forall (c : Legacy.CUnit) (a : Legacy.AUnit),
     Legacy.accessor_of c = Some a ->
     n * Legacy.nanometersPerUnit c < 2 ^ 53 ->
     exists l, Legacy.FromUnit c (F64.of_uint64 n) = Some l /\
               Legacy.ToUnit a l = F64.of_uint64 n).
Proof.
  intros Hn.
  assert (G : forall (c : Lengths.CUnit) (a : Lengths.AUnit),
     Lengths.accessor_of c = Some a ->
     n * Lengths.nanometersPerUnit c < 2 ^ 53 ->
     exists l, Lengths.FromUnit c (F64.of_uint64 n) = Some l /\
               Lengths.ToUnit a l = F64.of_uint64 n).
  { intros c a Ha Hl. exists (n * Lengths.nanometersPerUnit c).
    split; [apply FromUnit_whole; assumption|].
    rewrite <- (accessor_of_constant c a Ha) in *.
    apply ToUnit_whole; [exact Hn|].
    pose proof (unit_constant_bounds a). split; nia. }
  split; [exact G|].
  intros c a Ha Hl.
  rewrite Legacy_nanometersPerUnit in Hl.
  destruct (G _ _ (Legacy_accessor_of c a Ha) Hl) as (l & L1 & L2).
  exists l. rewrite Legacy_FromUnit, Legacy_ToUnit. split; assumption.
Qed.

Lemma X3_witness :
  0 <= 12 /\
  Lengths.accessor_of Lengths.CInches = Some Lengths.AInches /\
  12 * Lengths.nanometersPerUnit Lengths.CInches < 2 ^ 53 /\
  exists l, Lengths.FromUnit Lengths.CInches (F64.of_uint64 12) = Some l /\
            Lengths.ToUnit Lengths.AInches l = F64.of_uint64 12.
Proof.
  assert (H0 : 0 <= 12) by lia.
  assert (H1 : 12 * Lengths.nanometersPerUnit Lengths.CInches < 2 ^ 53)
    by (vm_compute; reflexivity).
  split; [exact H0|]. split; [reflexivity|]. split; [exact H1|].
  apply (proj1 (X3_round_trip_whole_numbers 12 H0) Lengths.CInches Lengths.AInches);
    [reflexivity|exact H1].
Defined.

(** X4.  Reading a length below [2^51] nanometers with an accessor and
    building it back with the converting function of the same unit gives
    the same length or one nanometer less, never anything else; the loss
    does occur ([15nm] read in meters comes back as [14nm]). *)
Theorem X4_rebuild_loses_at_most_one :
  (forall (c : Lengths.CUnit) (a : Lengths.AUnit) (l : Length),
     Lengths.accessor_of c = Some a -> 0 <= l < 2 ^ 51 ->
     Lengths.FromUnit c (Lengths.ToUnit a l) = Some l \/
     Lengths.FromUnit c (Lengths.ToUnit a l) = Some (l - 1)) /\
  (forall (c : Legacy.CUnit) (a : Legacy.AUnit) (l : Length),
     Legacy.accessor_of c = Some a -> 0 <= l < 2 ^ 51 ->
     Legacy.FromUnit c (Legacy.ToUnit a l) = Some l \/
     Legacy.FromUnit c (Legacy.ToUnit a l) = Some (l - 1)) /\
  Lengths.Meters (Lengths.Length_Meters 15) = Some 14.
Proof.
  split; [|split].
  - intros c a l Ha Hl. apply rebuild_bound; assumption.
  - intros c a l Ha Hl. rewrite Legacy_FromUnit, Legacy_ToUnit.
    apply rebuild_bound; [apply Legacy_accessor_of; exact Ha|exact Hl].
  - vm_compute. reflexivity.
Qed.

Lemma X4_witness :
  Lengths.accessor_of Lengths.CMeters = Some Lengths.AMeters /\
  0 <= 1234567 < 2 ^ 51 /\
  (Lengths.FromUnit Lengths.CMeters (Lengths.ToUnit Lengths.AMeters 1234567)
   = Some 1234567 \/
   Lengths.FromUnit Lengths.CMeters (Lengths.ToUnit Lengths.AMeters 1234567)
   = Some (1234567 - 1)).
Proof.
  assert (H1 : 0 <= 1234567 < 2 ^ 51) by (vm_compute; split; [discriminate|reflexivity]).
  split; [reflexivity|]. split; [exact H1|].
  apply (proj1 X4_rebuild_loses_at_most_one Lengths.CMeters Lengths.AMeters 1234567);
    [reflexivity|exact H1].
Defined.

(** X5.  Whenever a converting function returns a length [l] for a
    non-negative double [f], [l] is at most the exact product
    [f * Ku] enlarged by the roundoff [2^-53], and more than that product
    reduced by the roundoff minus one nanometer. *)
Theorem X5_FromUnit_against_exact_product (f : F64.float64) :
  F64.nonneg f = true ->
  (forall (c : Lengths.CUnit) (l : Length),
     Lengths.FromUnit c f = Some l ->
     (F64.value f * inject_Z (Lengths.nanometersPerUnit c) * (1 - u53) - 1
      < inject_Z l)%Q /\
     (inject_Z l
      <= F64.value f * inject_Z (Lengths.nanometersPerUnit c) * (1 + u53))%Q) /\
  (forall (c : Legacy.CUnit) (l : Length),
     Legacy.FromUnit c f = Some l ->
     (F64.value f * inject_Z (Legacy.nanometersPerUnit c) * (1 - u53) - 1
      < inject_Z l)%Q /\
     (inject_Z l
      <= F64.value f * inject_Z (Legacy.nanometersPerUnit c) * (1 + u53))%Q).
Proof.
  intros Hn. split; intros c l Hl.
  - apply FromUnit_real_bound; assumption.
  - rewrite Legacy_nanometersPerUnit. rewrite Legacy_FromUnit in Hl.
    apply FromUnit_real_bound; assumption.
Qed.

Lemma X5_witness :
  F64.nonneg (F64.of_decimal 1 (-7)) = true /\
  Lengths.FromUnit Lengths.CInches (F64.of_decimal 1 (-7)) = Some 2 /\
  (F64.value (F64.of_decimal 1 (-7))
   * inject_Z (Lengths.nanometersPerUnit Lengths.CInches) * (1 - u53) - 1
   < inject_Z 2)%Q.
Proof.
  assert (Hn : F64.nonneg (F64.of_decimal 1 (-7)) = true)
    by (vm_compute; reflexivity).
  assert (Hl : Lengths.FromUnit Lengths.CInches (F64.of_decimal 1 (-7)) = Some 2)
    by (vm_compute; reflexivity).
  split; [exact Hn|]. split; [exact Hl|].
  exact (proj1 (proj1 (X5_FromUnit_against_exact_product _ Hn)
                  Lengths.CInches 2 Hl)).
Defined.

(** X6.  A length made of whole feet and fewer than twelve whole inches
    decomposes exactly: [FeetAndInches] returns the doubles of the two
    counts, in both variants. *)
Theorem X6_FeetAndInches_whole (ft i : Z) :
  0 <= ft -> 0 <= i < 12 ->
  is_uint64 (ft * Lengths.Foot + i * Lengths.Inch) ->
  Lengths.FeetAndInches (ft * Lengths.Foot + i * Lengths.Inch)
  = (F64.of_uint64 ft, F64.of_uint64 i) /\
  Legacy.FeetAndInches (ft * Legacy.Foot + i * Legacy.Inch)
  = (F64.of_uint64 ft, F64.of_uint64 i).
Proof.
  intros Hf Hi Hl.
  assert (G := FeetAndInches_whole ft i Hf Hi Hl).
  split; [exact G|]. rewrite Legacy_FeetAndInches. exact G.
Qed.

Lemma X6_witness :
  0 <= 5 /\ 0 <= 10 < 12 /\
  is_uint64 (5 * Lengths.Foot + 10 * Lengths.Inch) /\
  Lengths.FeetAndInches (5 * Lengths.Foot + 10 * Lengths.Inch)
  = (F64.of_uint64 5, F64.of_uint64 10).
Proof.
  assert (H0 : 0 <= 5) by lia. assert (H1 : 0 <= 10 < 12) by lia.
  assert (H2 : is_uint64 (5 * Lengths.Foot + 10 * Lengths.Inch))
    by (vm_compute; split; [discriminate|reflexivity]).
  split; [exact H0|]. split; [exact H1|]. split; [exact H2|].
  exact (proj1 (X6_FeetAndInches_whole 5 10 H0 H1 H2)).
Defined.

Lemma formatFloat_ToUnit_whole (a : Lengths.AUnit) (n : Z) :
  1 <= n < 2 ^ 52 -> is_uint64 (n * Lengths.nanometersPerAUnit a) ->
  formatFloat (Lengths.ToUnit a (n * Lengths.nanometersPerAUnit a)) = Strconv.utoa n.
Proof.
  intros Hn Hl. rewrite (ToUnit_whole a n ltac:(lia) Hl).
  apply formatFloat_whole. lia.
Qed.

(** X7.  A whole number [n] of units prints as the decimal digits of [n]
    followed by the unit, without decimal point: micrometers for
    [n < 1000], millimeters for [n < 10], centimeters for [n < 100], and
    meters for [n < 1000] then kilometers in [lengths.go], meters for
    every [n] in the older variant. *)
Theorem X7_String_whole_units (n : Z) :
  1 <= n ->
  (n < 1000 ->
     Lengths.String (n * Lengths.Micrometer) = (Strconv.utoa n ++ "μm")%string) /\
  (n < 10 ->
     Lengths.String (n * Lengths.Millimeter) = (Strconv.utoa n ++ "mm")%string) /\
  (n < 100 ->
     Lengths.String (n * Lengths.Centimeter) = (Strconv.utoa n ++ "cm")%string) /\
  (n < 1000 ->
     Lengths.String (n * Lengths.Meter) = (Strconv.utoa n ++ "m")%string) /\
  (is_uint64 (n * Lengths.Kilometer) ->
     Lengths.String (n * Lengths.Kilometer) = (Strconv.utoa n ++ "km")%string) /\
  (n < 1000 ->
     Legacy.String (n * Legacy.Micrometer) = (Strconv.utoa n ++ "μm")%string) /\
  (n < 10 ->
     Legacy.String (n * Legacy.Millimeter) = (Strconv.utoa n ++ "mm")%string) /\
  (n < 100 ->
     Legacy.String (n * Legacy.Centimeter) = (Strconv.utoa n ++ "cm")%string) /\
  (is_uint64 (n * Legacy.Meter) ->
     Legacy.String (n * Legacy.Meter) = (Strconv.utoa n ++ "m")%string).
Proof.
  intros Hn.
  pose proof (formatFloat_ToUnit_whole Lengths.AMicrometers n) as Fum.
  pose proof (formatFloat_ToUnit_whole Lengths.AMillimeters n) as Fmm.
  pose proof (formatFloat_ToUnit_whole Lengths.ACentimeters n) as Fcm.
  pose proof (formatFloat_ToUnit_whole Lengths.AMeters n) as Fm.
  pose proof (formatFloat_ToUnit_whole Lengths.AKilometers n) as Fkm.
  cbn [Lengths.ToUnit Lengths.nanometersPerAUnit] in Fum, Fmm, Fcm, Fm, Fkm.
  unfold is_uint64 in *.
  change Lengths.Micrometer with 1000 in *.
  change Lengths.Millimeter with 1000000 in *.
  change Lengths.Centimeter with 10000000 in *.
  change Lengths.Meter with 1000000000 in *.
  change Lengths.Kilometer with 1000000000000 in *.
  change Legacy.Micrometer with 1000. change Legacy.Millimeter with 1000000.
  change Legacy.Centimeter with 10000000. change Legacy.Meter with 1000000000.
  change (2 ^ 64) with 18446744073709551616 in *.
  change (2 ^ 52) with 4503599627370496 in *.
  split; [|split; [|split; [|split; [|split; [|split; [|split; [|split]]]]]]];
    intros H.
  - destruct (Lengths_String_cases (n * 1000)) as (_ & _ & A & _).
    change Lengths.Micrometer with 1000 in A. change Lengths.Millimeter with 1000000 in A.
    rewrite A, Fum by lia. reflexivity.
  - destruct (Lengths_String_cases (n * 1000000)) as (_ & _ & _ & A & _).
    change Lengths.Millimeter with 1000000 in A. change Lengths.Centimeter with 10000000 in A.
    rewrite A, Fmm by lia. reflexivity.
  - destruct (Lengths_String_cases (n * 10000000)) as (_ & _ & _ & _ & A & _).
    change Lengths.Centimeter with 10000000 in A. change Lengths.Meter with 1000000000 in A.
    rewrite A, Fcm by lia. reflexivity.
  - destruct (Lengths_String_cases (n * 1000000000)) as (_ & _ & _ & _ & _ & A & _).
    change Lengths.Meter with 1000000000 in A. change Lengths.Kilometer with 1000000000000 in A.
    rewrite A, Fm by lia. reflexivity.
  - destruct (Lengths_String_cases (n * 1000000000000)) as (_ & _ & _ & _ & _ & _ & A).
    change Lengths.Kilometer with 1000000000000 in A.
    rewrite A, Fkm by lia. reflexivity.
  - destruct (Legacy_String_cases (n * 1000)) as (_ & _ & A & _).
    change Legacy.Micrometer with 1000 in A. change Legacy.Millimeter with 1000000 in A.
    rewrite A by lia.
    change (Legacy.Length_Micrometers (n * 1000)) with (Lengths.Length_Micrometers (n * 1000)).
    rewrite Fum by lia. reflexivity.
  - destruct (Legacy_String_cases (n * 1000000)) as (_ & _ & _ & A & _).
    change Legacy.Millimeter with 1000000 in A. change Legacy.Centimeter with 10000000 in A.
    rewrite A by lia.
    change (Legacy.Length_Millimeters (n * 1000000)) with (Lengths.Length_Millimeters (n * 1000000)).
    rewrite Fmm by lia. reflexivity.
  - destruct (Legacy_String_cases (n * 10000000)) as (_ & _ & _ & _ & A & _).
    change Legacy.Centimeter with 10000000 in A. change Legacy.Meter with 1000000000 in A.
    rewrite A by lia.
    change (Legacy.Length_Centimeters (n * 10000000)) with (Lengths.Length_Centimeters (n * 10000000)).
    rewrite Fcm by lia. reflexivity.
  - destruct (Legacy_String_cases (n * 1000000000)) as (_ & _ & _ & _ & _ & A).
    change Legacy.Meter with 1000000000 in A.
    rewrite A by lia.
    change (Legacy.Length_Meters (n * 1000000000)) with (Lengths.Length_Meters (n * 1000000000)).
    rewrite Fm by lia. reflexivity.
Qed.

Lemma X7_witness :
  1 <= 10 /\ 10 < 1000 /\
  Lengths.String (10 * Lengths.Meter) = (Strconv.utoa 10 ++ "m")%string.
Proof.
  assert (H0 : 1 <= 10) by lia. assert (H1 : 10 < 1000) by lia.
  split; [exact H0|]. split; [exact H1|].
  apply (proj1 (proj2 (proj2 (proj2 (X7_String_whole_units 10 H0))))). exact H1.
Defined.

(** X8.  Accuracy of the accessors: for every length the double returned
    lies within the exact quotient [l / Ku] scaled by [(1 - 2^-53)^2] and
    [(1 + 2^-53)^2], in both variants. *)
Theorem X8_ToUnit_accuracy (l : Length) :
  is_uint64 l ->
  (forall a : Lengths.AUnit,
     let x := (inject_Z l / inject_Z (Lengths.nanometersPerAUnit a))%Q in
     (x * (1 - u53) * (1 - u53) <= F64.value (Lengths.ToUnit a l))%Q /\
     (F64.value (Lengths.ToUnit a l) <= x * (1 + u53) * (1 + u53))%Q) /\
  (forall a : Legacy.AUnit,
     let x := (inject_Z l / inject_Z (Legacy.nanometersPerAUnit a))%Q in
     (x * (1 - u53) * (1 - u53) <= F64.value (Legacy.ToUnit a l))%Q /\
     (F64.value (Legacy.ToUnit a l) <= x * (1 + u53) * (1 + u53))%Q).
Proof.
  intros Hl.
  assert (G : forall a : Lengths.AUnit,
     let x := (inject_Z l / inject_Z (Lengths.nanometersPerAUnit a))%Q in
     (x * (1 - u53) * (1 - u53) <= F64.value (Lengths.ToUnit a l))%Q /\
     (F64.value (Lengths.ToUnit a l) <= x * (1 + u53) * (1 + u53))%Q).
  { intros a x. rewrite divisor_constant.
    destruct (two_step_bounds _ l (unit_constant_bounds a) Hl) as (_ & _ & Lo & Hi).
    split; assumption. }
  split; [exact G|].
  intros a. rewrite Legacy_ToUnit, Legacy_nanometersPerAUnit. apply G.
Qed.

Lemma X8_witness :
  is_uint64 1234567 /\
  (inject_Z 1234567 / inject_Z (Lengths.nanometersPerAUnit Lengths.AMeters)
   * (1 - u53) * (1 - u53)
   <= F64.value (Lengths.ToUnit Lengths.AMeters 1234567))%Q.
Proof.
  assert (H : is_uint64 1234567) by (vm_compute; split; [discriminate|reflexivity]).
  split; [exact H|].
  exact (proj1 (proj1 (X8_ToUnit_accuracy 1234567 H) Lengths.AMeters)).
Defined.

(** X9.  The conversion tests of [lengths_test.go] ([TestFromMetrics],
    [TestFromInches], [TestFromFeet], [TestFeetAndInches]) pass on both
    variants of the package. *)
Theorem X9_conversion_tests_pass :
  Tests.TestFromMetrics Lengths.Millimeters Lengths.Centimeters Lengths.Meters = true /\
  Tests.TestFromInches Lengths.Inches = true /\
  Tests.TestFromFeet Lengths.Feet = true /\
  Tests.TestFeetAndInches Lengths.FeetAndInches = true /\
  Tests.TestFromMetrics Legacy.Millimeters Legacy.Centimeters Legacy.Meters = true /\
  Tests.TestFromInches Legacy.Inches = true /\
  Tests.TestFromFeet Legacy.Feet = true /\
  Tests.TestFeetAndInches Legacy.FeetAndInches = true.
Proof.
  split; [vm_compute; reflexivity|]. split; [vm_compute; reflexivity|].
  split; [vm_compute; reflexivity|]. split; [vm_compute; reflexivity|].
  split; [vm_compute; reflexivity|]. split; [vm_compute; reflexivity|].
  split; vm_compute; reflexivity.
Qed.


(** X11.  The units agree with one another on whole numbers: [n] meters
    built by [Meters] is the length built by [Centimeters] from [100 n] and
    by [Millimeters] from [1000 n], [n] feet is [12 n] inches, [10 n]
    inches is [254 n] millimeters; and read back, [n] feet is [12 n]
    inches and [n] kilometers is [1000 n] meters. *)
Theorem X11_units_agree_on_whole_numbers (n : Z) :
  0 <= n ->
  (n * Lengths.Meter < 2 ^ 53 ->
     Lengths.Meters (F64.of_uint64 n) = Lengths.Centimeters (F64.of_uint64 (100 * n)) /\
     Lengths.Meters (F64.of_uint64 n) = Lengths.Millimeters (F64.of_uint64 (1000 * n))) /\
  (n * Lengths.Foot < 2 ^ 53 ->
     Lengths.Feet (F64.of_uint64 n) = Lengths.Inches (F64.of_uint64 (12 * n))) /\
  (n * (10 * Lengths.Inch) < 2 ^ 53 ->
     Lengths.Inches (F64.of_uint64 (10 * n)) = Lengths.Millimeters (F64.of_uint64 (254 * n))) /\
  (is_uint64 (n * Lengths.Foot) ->
     Lengths.Length_Inches (n * Lengths.Foot) = F64.of_uint64 (12 * n)) /\
  (is_uint64 (n * Lengths.Kilometer) ->
     Lengths.Length_Meters (n * Lengths.Kilometer) = F64.of_uint64 (1000 * n)).
Proof.
  intros Hn.
  pose proof (fun c k => FromUnit_whole c k) as W.
  pose proof (fun a k => ToUnit_whole a k) as R.
  change Lengths.Meter with 1000000000. change Lengths.Foot with 304800000.
  change Lengths.Inch with 25400000. change Lengths.Kilometer with 1000000000000.
  split; [|split; [|split; [|split]]]; intros H.
  - pose proof (W Lengths.CMeters n) as A.
    pose proof (W Lengths.CCentimeters (100 * n)) as B.
    pose proof (W Lengths.CMillimeters (1000 * n)) as C.
    cbn [Lengths.FromUnit Lengths.nanometersPerUnit] in A, B, C.
    change Lengths.Meter with 1000000000 in A.
    change Lengths.Centimeter with 10000000 in B.
    change Lengths.Millimeter with 1000000 in C.
    rewrite A, B, C by lia. split; f_equal; lia.
  - pose proof (W Lengths.CFeet n) as A.
    pose proof (W Lengths.CInches (12 * n)) as B.
    cbn [Lengths.FromUnit Lengths.nanometersPerUnit] in A, B.
    change Lengths.Foot with 304800000 in A.
    change Lengths.Inch with 25400000 in B.
    rewrite A, B by lia. f_equal; lia.
  - pose proof (W Lengths.CInches (10 * n)) as A.
    pose proof (W Lengths.CMillimeters (254 * n)) as B.
    cbn [Lengths.FromUnit Lengths.nanometersPerUnit] in A, B.
    change Lengths.Inch with 25400000 in A.
    change Lengths.Millimeter with 1000000 in B.
    rewrite A, B by lia. f_equal; lia.
  - pose proof (R Lengths.AInches (12 * n)) as A.
    cbn [Lengths.ToUnit Lengths.nanometersPerAUnit] in A.
    change Lengths.Inch with 25400000 in A.
    replace (n * 304800000) with (12 * n * 25400000) in * by lia.
    apply A; [lia|exact H].
  - pose proof (R Lengths.AMeters (1000 * n)) as A.
    cbn [Lengths.ToUnit Lengths.nanometersPerAUnit] in A.
    change Lengths.Meter with 1000000000 in A.
    replace (n * 1000000000000) with (1000 * n * 1000000000) in * by lia.
    apply A; [lia|exact H].
Qed.

Lemma X11_witness :
  0 <= 6 /\ 6 * Lengths.Foot < 2 ^ 53 /\
  Lengths.Feet (F64.of_uint64 6) = Lengths.Inches (F64.of_uint64 (12 * 6)).
Proof.
  assert (H0 : 0 <= 6) by lia.
  assert (H1 : 6 * Lengths.Foot < 2 ^ 53) by (vm_compute; reflexivity).
  split; [exact H0|]. split; [exact H1|].
  apply (proj1 (proj2 (X11_units_agree_on_whole_numbers 6 H0))). exact H1.
Defined.
